(** * Bordeaux VLS pipeline: ingestion cycle, snapshot store and ranking query

    A shallow embedding of [extract.py] (the console collector) and [app.py]
    (the Streamlit dashboard).  Both files share one SQLite database file with
    a single table, [station_status], and the same SQL text.

    Modelling choices, all of them visible in the definitions below:
    - a table row is a record whose columns are nullable where the Python code
      may bind [None] ([dict.get] on an absent key); NULL is [None];
    - INTEGER columns are [Z], taken within SQLite's 64-bit range (a larger
      Python int makes the bind raise [OverflowError]; station counts are far
      below); the overflow of [SUM] is modelled;
    - REAL values are exact rationals [Q], where SQLite computes in binary64;
    - the database file may lack the table [station_status]: a query on it
      then fails, and [CREATE TABLE IF NOT EXISTS] creates it for good;
    - TEXT values are [string]s compared byte-wise (SQLite's BINARY collation);
    - Python code that opens connections, raises and catches is written in a
      small state-and-exception monad [M] over a [World];
    - the network, the wall clock and storage faults are inputs ([Env]). *)

From Stdlib Require Import ZArith QArith Qround List String Ascii Bool Lia Sorted.
Import ListNotations.
From Stdlib Require Import Lqa.

(* ===================================================================== *)
(** * Data model *)
(* ===================================================================== *)

(** One raw station object of the API body.  The code reads it only through
    [station.get(key)], which yields [None] for an absent key. *)
Module Station.
Record t : Type := mk {
  id : option string;
  name : option string;
  free_bikes : option Z;
  empty_slots : option Z;
  latitude : option Q;
  longitude : option Q
}.
End Station.

(** One row of [station_status], columns in the order of [SQL_CREATE_TABLE]. *)
Record Row : Type := mkRow {
  snapshot_time : string;
  station_id : option string;
  name : option string;
  num_bikes_available : option Z;
  num_docks_available : option Z;
  latitude : option Q;
  longitude : option Q
}.

(** One row of the result of [SQL_RANKING_QUERY]. *)
Module Ranking.
Record t : Type := mk {
  station_id : option string;
  name : option string;
  snapshots_count : Z;
  total_bikes : option Z;
  avg_bikes : option Q;
  avg_utilization_percent : option Q
}.
End Ranking.

(** What the column [Utilisation %] of the ranking frame of app.py holds
    after [.round(2).astype(str) + '%']: the text of a number, ['nan%'] for
    the NaN of a float column, ['None%'] for the None of an object column. *)
Inductive percent : Type :=
| PercentOf (u : Q)
| PercentNaN
| PercentNone.

(** One row of the data frame returned by [get_ranking_analysis], columns
    as renamed: [Snapshots], [Velos_Moy] (Vélos Moy.), [Utilisation]. *)
Module Frame.
Record row : Type := mk {
  station_id : option string;
  name : option string;
  Snapshots : Z;
  total_bikes : option Z;
  Velos_Moy : option Q;
  Utilisation : percent
}.
End Frame.

(* ===================================================================== *)
(** * SQL scalar and aggregate functions *)
(* ===================================================================== *)

Module Sql.

(** The non-NULL values of a column, in row order. *)
Fixpoint non_null {A : Type} (xs : list (option A)) : list A :=
  match xs with
  | [] => []
  | Some a :: xs' => a :: non_null xs'
  | None :: xs' => non_null xs'
  end.

(** [COUNT( * )]: every row counts. *)
Definition count_star {A : Type} (rows : list A) : Z :=
  Z.of_nat (List.length rows).

Definition Zsum (vs : list Z) : Z := fold_right Z.add 0%Z vs.
Definition Qsum (vs : list Q) : Q := fold_right Qplus 0%Q vs.

(** [SUM(x)]: NULL when no row has a non-NULL [x]. *)
Definition sum (xs : list (option Z)) : option Z :=
  match non_null xs with
  | [] => None
  | vs => Some (Zsum vs)
  end.

(** SQLite adds the values of [SUM] one by one in a signed 64-bit integer
    and fails with "integer overflow" as soon as the running total leaves
    the range. *)
Definition INT64_MIN : Z := (- 2 ^ 63)%Z.
Definition INT64_MAX : Z := (2 ^ 63 - 1)%Z.

Fixpoint running_total_overflows (acc : Z) (vs : list Z) : bool :=
  match vs with
  | [] => false
  | v :: vs' =>
      let acc' := (acc + v)%Z in
      if ((INT64_MIN <=? acc') && (acc' <=? INT64_MAX))%Z
      then running_total_overflows acc' vs'
      else true
  end.

Definition sum_overflows (xs : list (option Z)) : bool :=
  running_total_overflows 0 (non_null xs).

(** [AVG(x)]: the mean of the non-NULL values, NULL when there is none. *)
Definition avg (xs : list (option Q)) : option Q :=
  match non_null xs with
  | [] => None
  | vs => Some (Qred (Qsum vs / inject_Z (Z.of_nat (List.length vs))))
  end.

(** [CAST(x AS REAL)] *)
Definition cast_real (x : option Z) : option Q := option_map inject_Z x.

(** [x + y] on integers: NULL if either side is NULL. *)
Definition add (x y : option Z) : option Z :=
  match x, y with
  | Some a, Some b => Some (a + b)%Z
  | _, _ => None
  end.

(** [x / y] with a REAL dividend: NULL if either side is NULL, and NULL
    (not an error) when the divisor is zero. *)
Definition div (x : option Q) (y : option Z) : option Q :=
  match x, y with
  | Some a, Some b => if (b =? 0)%Z then None else Some (a / inject_Z b)
  | _, _ => None
  end.

(** [x * c] for a numeric literal [c]. *)
Definition mul (x : option Q) (c : Q) : option Q :=
  option_map (fun a => a * c) x.

(** Nearest integer, halves away from zero. *)
Definition round_half_away (q : Q) : Z :=
  if Qle_bool 0 q then Qfloor (q + (1 # 2))
  else (- Qfloor (- q + (1 # 2)))%Z.

(** [ROUND(x, digits)] *)
Definition round (x : option Q) (digits : nat) : option Q :=
  let scale := inject_Z (10 ^ Z.of_nat digits) in
  option_map (fun q => Qred (inject_Z (round_half_away (q * scale)) / scale)) x.

(** The order [ORDER BY] sorts with: NULL is below every value. *)
Definition gtb (x y : option Q) : bool :=
  match x, y with
  | Some a, Some b => negb (Qle_bool a b)
  | Some _, None => true
  | None, _ => false
  end.

(** [x >= y] in that order, as a proposition. *)
Definition ge (x y : option Q) : Prop :=
  match x, y with
  | Some a, Some b => b <= a
  | _, None => True
  | None, Some _ => False
  end.

End Sql.

(* ===================================================================== *)
(** * The two queries *)
(* ===================================================================== *)

Definition option_eqb {A : Type} (eqb : A -> A -> bool) (x y : option A) : bool :=
  match x, y with
  | Some a, Some b => eqb a b
  | None, None => true
  | _, _ => false
  end.

(** The [GROUP BY station_id, name] key; NULLs group together. *)
Definition group_key : Type := (option string * option string)%type.

Definition key_of (r : Row) : group_key := (station_id r, name r).

Definition key_eqb (k k' : group_key) : bool :=
  option_eqb String.eqb (fst k) (fst k') && option_eqb String.eqb (snd k) (snd k').

(** The distinct keys of a column of keys, each at its first occurrence. *)
Fixpoint distinct (ks : list group_key) : list group_key :=
  match ks with
  | [] => []
  | k :: ks' => k :: filter (fun k' => negb (key_eqb k k')) (distinct ks')
  end.

(** The rows of one group, in storage order. *)
Definition group_rows (k : group_key) (rows : list Row) : list Row :=
  filter (fun r => key_eqb k (key_of r)) rows.

(** [CAST(num_bikes_available AS REAL) / (num_bikes_available + num_docks_available)] *)
Definition utilization_ratio (r : Row) : option Q :=
  Sql.div (Sql.cast_real (num_bikes_available r))
          (Sql.add (num_bikes_available r) (num_docks_available r)).

(** The select list of [SQL_RANKING_QUERY], evaluated on one group. *)
Definition aggregate (k : group_key) (rows : list Row) : Ranking.t :=
  Ranking.mk
    (fst k)
    (snd k)
    (Sql.count_star rows)
    (Sql.sum (map num_bikes_available rows))
    (Sql.avg (map (fun r => Sql.cast_real (num_bikes_available r)) rows))
    (Sql.round (Sql.mul (Sql.avg (map utilization_ratio rows)) (100 # 1)) 2).

(** The order in which SQLite's sorter delivers the groups: by [station_id],
    then by [name]; NULL first, TEXT byte-wise. *)
Definition nullable_text_compare (x y : option string) : comparison :=
  match x, y with
  | None, None => Eq
  | None, Some _ => Lt
  | Some _, None => Gt
  | Some a, Some b => String.compare a b
  end.

Definition key_leb (k k' : group_key) : bool :=
  match nullable_text_compare (fst k) (fst k') with
  | Lt => true
  | Gt => false
  | Eq => match nullable_text_compare (snd k) (snd k') with
          | Gt => false
          | _ => true
          end
  end.

Fixpoint insert_key (k : group_key) (l : list group_key) : list group_key :=
  match l with
  | [] => [k]
  | x :: l' => if key_leb k x then k :: l else x :: insert_key k l'
  end.

Definition sort_keys (ks : list group_key) : list group_key :=
  fold_right insert_key [] ks.

(** [FROM station_status GROUP BY station_id, name]: one entry per group,
    the groups in key order. *)
Definition grouped (rows : list Row) : list Ranking.t :=
  map (fun k => aggregate k (group_rows k rows))
      (sort_keys (distinct (map key_of rows))).

(** [ORDER BY avg_bikes DESC]: a stable sort, so that groups with the same
    [avg_bikes] stay in key order. *)
Fixpoint insert_desc (e : Ranking.t) (l : list Ranking.t) : list Ranking.t :=
  match l with
  | [] => [e]
  | x :: l' =>
      if Sql.gtb (Ranking.avg_bikes x) (Ranking.avg_bikes e)
      then x :: insert_desc e l'
      else e :: x :: l'
  end.

Definition order_by_avg_bikes_desc (l : list Ranking.t) : list Ranking.t :=
  fold_right insert_desc [] l.

(** [LIMIT 10] *)
Definition RANKING_LIMIT : nat := 10.

Definition SQL_RANKING_QUERY (rows : list Row) : list Ranking.t :=
  firstn RANKING_LIMIT (order_by_avg_bikes_desc (grouped rows)).

(** [SUM(num_bikes_available)] overflows in some group: the whole query
    fails. *)
Definition ranking_overflows (rows : list Row) : bool :=
  existsb (fun k => Sql.sum_overflows (map num_bikes_available (group_rows k rows)))
          (distinct (map key_of rows)).

(** [SELECT MAX(snapshot_time) FROM station_status]: NULL on an empty table. *)
Definition max_text (a b : string) : string :=
  if String.leb a b then b else a.

Definition max_snapshot_time (rows : list Row) : option string :=
  match rows with
  | [] => None
  | r :: rows' => Some (fold_left max_text (map snapshot_time rows') (snapshot_time r))
  end.

(** [SELECT * FROM station_status WHERE snapshot_time = (SELECT MAX(...))];
    a comparison with NULL selects no row. *)
Definition SQL_LATEST_QUERY (rows : list Row) : list Row :=
  match max_snapshot_time rows with
  | None => []
  | Some m => filter (fun r => String.eqb (snapshot_time r) m) rows
  end.

(* ===================================================================== *)
(** * The world the Python code runs in *)
(* ===================================================================== *)

(** The exception classes the handlers tell apart. *)
Inductive exn : Type :=
| SqliteError        (* sqlite3.Error *)
| RequestException   (* requests.exceptions.RequestException *)
| OtherException.    (* any other subclass of Exception *)

(** What the code shows to its user: [print] in extract.py, [st.error] in
    app.py.  Padding and truncation of the printed ranking table are layout
    and are not kept. *)
Inductive msg : Type :=
| MsgNoData                    (* Avertissement: Aucune donnee a inserer. *)
| MsgLoaded (n : nat)          (* Chargement reussi : n lignes inserees. *)
| MsgSqliteError               (* Erreur SQLite ... *)
| MsgApiError                  (* Erreur lors de la requete API ou de la connexion *)
| MsgUnexpected                (* Erreur inattendue dans le cycle *)
| MsgDisplayError              (* Erreur de base de donnees lors de la recuperation ... *)
| MsgRankingHeader             (* [ANALYSE] Top 10 Stations par Utilisation Moyenne *)
| MsgRankingEmpty              (* [ATTENTION] Aucune donnee disponible pour l'analyse. *)
| MsgRankingColumns            (* Station ID / Nom / Snapshots / Util. % *)
| MsgRankingRow (station_id : string) (name : option string) (count : Z) (util : Q)
| MsgRankingFooter
| MsgAnalysisSqlError          (* [ERREUR] Erreur SQL lors de l'analyse *)
| MsgAnalysisUnexpected        (* [ERREUR] Erreur inattendue lors de l'analyse *)
| MsgAnalysisExecError.        (* [ERREUR] Erreur lors de l'execution de l'analyse SQL *)

(** A [sqlite3.Connection]: the rows inserted and not yet committed, and
    whether [close()] was called. *)
Record Connection : Type := mkConn {
  pending : list Row;
  closed : bool
}.

(** [table] is the committed content of [station_status] in the database
    file, [None] while the file has no such table; [conn] is the local
    variable [conn] of the function that runs; [ticks] counts the readings
    of the wall clock; [out] is what was shown. *)
Record World : Type := mkWorld {
  table : option (list Row);
  conn : option Connection;
  ticks : nat;
  out : list msg
}.

(** The committed rows; a file without the table holds none. *)
Definition disk (w : World) : list Row :=
  match table w with
  | Some rows => rows
  | None => []
  end.

(** The body of the API answer after [response.json()]:
    [{ network: { stations: [...] } }], each key possibly absent. *)
Record Network : Type := mkNetwork { stations : option (list Station.t) }.
Record ApiDoc : Type := mkDoc { network : option Network }.

(** What [requests.get] meets: no answer at all, or an answer with a status
    code and a body that decodes to a document or makes [json()] raise. *)
Inductive http : Type :=
| TransportError
| Response (status_code : Z) (body : exn + ApiDoc).

(** A storage fault injected into one call: which SQLite operation raises
    [sqlite3.Error].  [InsertFails k] fails the row of index [k] of
    [executemany], after the rows before it were inserted. *)
Inductive fault : Type :=
| NoFault
| ConnectFails
| ExecuteFails
| InsertFails (k : nat)
| CommitFails.

Record Env : Type := mkEnv {
  http_reply : http;
  clock : nat -> string;
  storage_fault : fault
}.

(* ===================================================================== *)
(** * A state-and-exception monad for the Python code *)
(* ===================================================================== *)

Definition M (A : Type) : Type := World -> (exn + A) * World.

Definition ret {A : Type} (a : A) : M A := fun w => (inr a, w).

Definition raise {A : Type} (e : exn) : M A := fun w => (inl e, w).

Definition bind {A B : Type} (m : M A) (k : A -> M B) : M B :=
  fun w =>
    match m w with
    | (inl e, w') => (inl e, w')
    | (inr a, w') => k a w'
    end.

Declare Scope py_scope.
Delimit Scope py_scope with py.
Notation "x <- m ;; k" := (bind m (fun x => k))
  (at level 61, m at next level, right associativity) : py_scope.
Notation "m ;; k" := (bind m (fun _ => k))
  (at level 61, right associativity) : py_scope.
Local Open Scope py_scope.

(** [try: body except ...: handler]; [handler e = None] when no clause
    matches [e], which then propagates. *)
Definition try_except {A : Type} (body : M A) (handler : exn -> option (M A)) : M A :=
  fun w =>
    match body w with
    | (inl e, w') =>
        match handler e with
        | Some h => h w'
        | None => (inl e, w')
        end
    | (inr a, w') => (inr a, w')
    end.

(** [try: body finally: fin]; [fin] runs on every way out of [body]. *)
Definition try_finally {A : Type} (body : M A) (fin : M unit) : M A :=
  fun w =>
    let (r, w') := body w in
    match fin w' with
    | (inl e, w'') => (inl e, w'')
    | (inr _, w'') => (r, w'')
    end.

Definition emit (m : msg) : M unit :=
  fun w => (inr tt, mkWorld (table w) (conn w) (ticks w) (out w ++ [m])).

Definition assign_conn (c : option Connection) : M unit :=
  fun w => (inr tt, mkWorld (table w) c (ticks w) (out w)).

(** [if conn: op] *)
Definition if_conn (op : M unit) : M unit :=
  fun w => match conn w with Some _ => op w | None => (inr tt, w) end.

(** A method call on [conn]: [None] has no such method, a closed connection
    refuses to operate. *)
Definition on_conn {A : Type} (op : Connection -> M A) : M A :=
  fun w =>
    match conn w with
    | None => (inl OtherException, w)
    | Some c => if closed c then (inl SqliteError, w) else op c w
    end.

Section Runtime.
Variable env : Env.

(** [datetime.now().isoformat()]: one reading of the clock. *)
Definition datetime_now_isoformat : M string :=
  fun w => (inr (clock env (ticks w)),
            mkWorld (table w) (conn w) (S (ticks w)) (out w)).

(** [conn = sqlite3.connect(DB_NAME)] *)
Definition sqlite3_connect : M unit :=
  match storage_fault env with
  | ConnectFails => raise SqliteError
  | _ => assign_conn (Some (mkConn [] false))
  end.

(** [cursor.execute(SQL_CREATE_TABLE)], [CREATE TABLE IF NOT EXISTS]: a
    missing table is created, empty.  The statement runs outside any
    transaction, so the table is in the file at once and a later
    [rollback()] does not remove it. *)
Definition execute_create_table : M unit :=
  on_conn (fun _ =>
    match storage_fault env with
    | ExecuteFails => raise SqliteError
    | _ => fun w => (inr tt, mkWorld (Some (disk w)) (conn w) (ticks w) (out w))
    end).

(** One [INSERT INTO station_status VALUES (?, ?, ?, ?, ?, ?, ?)], inside
    the connection's open transaction; it fails when the table is missing.
    (Binding an integer beyond 64 bits would raise [OverflowError]; the
    counts are taken within range.) *)
Definition insert_row (r : Row) : M unit :=
  on_conn (fun c w =>
    match table w with
    | None => (inl SqliteError, w)
    | Some _ => assign_conn (Some (mkConn (pending c ++ [r]) (closed c))) w
    end).

Definition insert_fails_at (i : nat) : bool :=
  match storage_fault env with
  | InsertFails k => Nat.eqb k i
  | _ => false
  end.

(** [cursor.executemany(SQL_INSERT, rows)], from the row of index [i]. *)
Fixpoint executemany_from (i : nat) (rows : list Row) : M unit :=
  match rows with
  | [] => ret tt
  | r :: rows' =>
      (if insert_fails_at i then raise SqliteError else insert_row r) ;;
      executemany_from (S i) rows'
  end.

Definition executemany (rows : list Row) : M unit :=
  on_conn (fun _ => executemany_from 0 rows).

(** [conn.commit()]: the pending rows reach the file, after those there. *)
Definition commit : M unit :=
  on_conn (fun c =>
    match storage_fault env with
    | CommitFails => raise SqliteError
    | _ => fun w => (inr tt, mkWorld (Some (disk w ++ pending c))
                                      (Some (mkConn [] (closed c)))
                                      (ticks w) (out w))
    end).

(** [conn.rollback()]: the pending rows are dropped. *)
Definition rollback : M unit :=
  on_conn (fun c => assign_conn (Some (mkConn [] (closed c)))).

(** [conn.close()]: what was not committed is lost. *)
Definition close : M unit :=
  fun w =>
    match conn w with
    | None => (inl OtherException, w)
    | Some _ => assign_conn (Some (mkConn [] true)) w
    end.

(** Running a SELECT on the connection with [cursor.execute]: it fails with
    an [sqlite3.Error] when the storage fault strikes, when the table is
    missing, and when the query itself fails on the rows; otherwise it sees
    the committed rows and the connection's own pending ones. *)
Definition execute_query {A : Type} (query : list Row -> exn + A) : M A :=
  on_conn (fun c w =>
    match storage_fault env with
    | ExecuteFails => (inl SqliteError, w)
    | _ =>
        match table w with
        | None => (inl SqliteError, w)
        | Some rows =>
            match query (rows ++ pending c) with
            | inl e => (inl e, w)
            | inr a => (inr a, w)
            end
        end
    end).

(** [pd.read_sql_query(query, conn)]: pandas runs the query and turns any
    failure of it into a [pandas.errors.DatabaseError], which is not an
    [sqlite3.Error]. *)
Definition read_sql_query {A : Type} (query : list Row -> exn + A) : M A :=
  try_except (execute_query query) (fun _ => Some (raise OtherException)).

(** [requests.get(API_URL)] *)
Definition requests_get : M (Z * (exn + ApiDoc)) :=
  match http_reply env with
  | TransportError => raise RequestException
  | Response status_code body => ret (status_code, body)
  end.

(** [response.raise_for_status()]: raises for the 4xx and 5xx statuses. *)
Definition raise_for_status (response : Z * (exn + ApiDoc)) : M unit :=
  let status_code := fst response in
  if ((400 <=? status_code) && (status_code <? 600))%Z
  then raise RequestException
  else ret tt.

(** [response.json()] *)
Definition response_json (response : Z * (exn + ApiDoc)) : M ApiDoc :=
  match snd response with
  | inl e => raise e
  | inr data => ret data
  end.

End Runtime.

(** [data.get('network', {}).get('stations', [])] *)
Definition get_stations (data : ApiDoc) : list Station.t :=
  match network data with
  | None => []
  | Some net =>
      match stations net with
      | None => []
      | Some l => l
      end
  end.

(** The transformation step: the tuple built for one station. *)
Definition make_row (current_time_str : string) (station : Station.t) : Row :=
  mkRow current_time_str
        (Station.id station)
        (Station.name station)
        (Station.free_bikes station)
        (Station.empty_slots station)
        (Station.latitude station)
        (Station.longitude station).

(** [not stations_data] *)
Definition is_empty {A : Type} (l : list A) : bool :=
  match l with [] => true | _ => false end.

(** The latest-snapshot query as [execute] runs it: it cannot fail on the
    rows. *)
Definition run_latest_query (rows : list Row) : exn + list Row :=
  inr (SQL_LATEST_QUERY rows).

(** The ranking query as [execute] runs it: it fails with
    "integer overflow" when a [SUM] overflows. *)
Definition run_ranking_query (rows : list Row) : exn + list Ranking.t :=
  if ranking_overflows rows then inl SqliteError
  else inr (SQL_RANKING_QUERY rows).

(** numpy's rounding to the nearest integer, halves to the even one. *)
Definition rint (q : Q) : Z :=
  let f := Qfloor q in
  match Qcompare (q - inject_Z f) (1 # 2) with
  | Lt => f
  | Gt => (f + 1)%Z
  | Eq => if Z.even f then f else (f + 1)%Z
  end.

(** [Series.round(2)] on a float column. *)
Definition np_round2 (u : Q) : Q :=
  Qred (inject_Z (rint (u * (100 # 1))) / (100 # 1)).

(** The column [avg_utilization_percent] of the frame that
    [read_sql_query] builds has dtype float64, with NaN for NULL, as soon as
    one value is a number; when every value is NULL it has dtype object and
    holds [None]. *)
Definition column_is_object (results : list Ranking.t) : bool :=
  forallb (fun e => match Ranking.avg_utilization_percent e with
                    | None => true
                    | Some _ => false
                    end) results.

(** One row of the frame after the formatting and renaming of columns. *)
Definition format_row (object_column : bool) (e : Ranking.t) : Frame.row :=
  Frame.mk (Ranking.station_id e) (Ranking.name e)
           (Ranking.snapshots_count e) (Ranking.total_bikes e)
           (Ranking.avg_bikes e)
           (match Ranking.avg_utilization_percent e with
            | Some u => PercentOf (np_round2 u)
            | None => if object_column then PercentNone else PercentNaN
            end).

(* ===================================================================== *)
(** * app.py *)
(* ===================================================================== *)

Module App.
Section AppCode.
Variable env : Env.

(** [load_data_to_sqlite(stations_data, current_time_str)]; the result is
    Python's [True], [False] or [None] (the bare [return]). *)
Definition load_data_to_sqlite (stations_data : list Station.t)
           (current_time_str : string) : M (option bool) :=
  assign_conn None ;;
  if is_empty stations_data then ret None
  else
    try_finally
      (try_except
         (sqlite3_connect env ;;
          execute_create_table env ;;
          let rows_to_insert := map (make_row current_time_str) stations_data in
          executemany env rows_to_insert ;;
          commit env ;;
          ret (Some true))
         (fun e =>
            match e with
            | SqliteError =>
                Some (emit MsgSqliteError ;;
                      if_conn (rollback) ;;
                      ret (Some false))
            | _ => None
            end))
      (if_conn close).

(** [run_ingestion_cycle()] *)
Definition run_ingestion_cycle : M (option bool) :=
  try_except
    (response <- requests_get env ;;
     raise_for_status response ;;
     data <- response_json response ;;
     let stations_data := get_stations data in
     current_time_str <- datetime_now_isoformat env ;;
     load_data_to_sqlite stations_data current_time_str)
    (fun e =>
       match e with
       | RequestException => Some (emit MsgApiError ;; ret (Some false))
       | _ => Some (emit MsgUnexpected ;; ret (Some false))
       end).

(** [get_station_data_for_display()], the body under the cache decorator:
    the rows of the data frame.  Only an [sqlite3.Error] gives the empty
    frame; the error pandas raises when the query fails passes through. *)
Definition get_station_data_for_display : M (list Row) :=
  assign_conn None ;;
  try_finally
    (try_except
       (sqlite3_connect env ;;
        df <- read_sql_query env run_latest_query ;;
        ret df)
       (fun e =>
          match e with
          | SqliteError => Some (emit MsgDisplayError ;; ret [])
          | _ => None
          end))
    (if_conn close).

(** Whether [Series.round] refuses a column of dtype object (it raises a
    [TypeError] in some versions of pandas and leaves the column alone in
    others). *)
Variable object_round_raises : bool.

(** [df['avg_utilization_percent'].round(2).astype(str) + '%'], then the
    renaming of the columns. *)
Definition format_utilization (df : list Ranking.t) : M (list Frame.row) :=
  if column_is_object df && object_round_raises
  then raise OtherException
  else ret (map (format_row (column_is_object df)) df).

(** [get_ranking_analysis()], the body under the cache decorator. *)
Definition get_ranking_analysis : M (list Frame.row) :=
  assign_conn None ;;
  try_finally
    (try_except
       (sqlite3_connect env ;;
        df <- read_sql_query env run_ranking_query ;;
        if is_empty df then ret []
        else format_utilization df)
       (fun e =>
          match e with
          | SqliteError => Some (emit MsgAnalysisExecError ;; ret [])
          | _ => Some (emit MsgAnalysisUnexpected ;; ret [])
          end))
    (if_conn close).

End AppCode.
End App.

(* ===================================================================== *)
(** * extract.py *)
(* ===================================================================== *)

Module Extract.
Section ExtractCode.
Variable env : Env.

(** [load_data_to_sqlite(stations_data, current_time_str)]; every path
    returns [None]. *)
Definition load_data_to_sqlite (stations_data : list Station.t)
           (current_time_str : string) : M unit :=
  assign_conn None ;;
  if is_empty stations_data then emit MsgNoData
  else
    try_finally
      (try_except
         (sqlite3_connect env ;;
          execute_create_table env ;;
          let rows_to_insert := map (make_row current_time_str) stations_data in
          executemany env rows_to_insert ;;
          commit env ;;
          emit (MsgLoaded (List.length rows_to_insert)))
         (fun e =>
            match e with
            | SqliteError =>
                Some (emit MsgSqliteError ;;
                      if_conn (rollback))
            | _ => None
            end))
      (if_conn close).

(** [run_ingestion_cycle()] *)
Definition run_ingestion_cycle : M unit :=
  try_except
    (response <- requests_get env ;;
     raise_for_status response ;;
     data <- response_json response ;;
     let stations_data := get_stations data in
     current_time_str <- datetime_now_isoformat env ;;
     load_data_to_sqlite stations_data current_time_str)
    (fun e =>
       match e with
       | RequestException => Some (emit MsgApiError)
       | _ => Some (emit MsgUnexpected)
       end).

(** One line of the printed table.  Formatting [None] with a width raises
    a [TypeError]; a NULL or zero utilization is shown as zero. *)
Definition print_ranking_row (row : Ranking.t) : M unit :=
  match Ranking.station_id row with
  | None => raise OtherException
  | Some sid =>
      let util_shown :=
        match Ranking.avg_utilization_percent row with
        | Some u => u
        | None => 0%Q
        end in
      emit (MsgRankingRow sid (Ranking.name row)
                          (Ranking.snapshots_count row) util_shown)
  end.

Fixpoint print_ranking_rows (results : list Ranking.t) : M unit :=
  match results with
  | [] => ret tt
  | row :: results' => print_ranking_row row ;; print_ranking_rows results'
  end.

(** [analyze_and_rank_stations()] *)
Definition analyze_and_rank_stations : M unit :=
  assign_conn None ;;
  try_finally
    (try_except
       (sqlite3_connect env ;;
        emit MsgRankingHeader ;;
        results <- execute_query env run_ranking_query ;;
        if is_empty results then emit MsgRankingEmpty
        else
          emit MsgRankingColumns ;;
          print_ranking_rows results ;;
          emit MsgRankingFooter)
       (fun e =>
          match e with
          | SqliteError => Some (emit MsgAnalysisSqlError)
          | _ => Some (emit MsgAnalysisUnexpected)
          end))
    (if_conn close).

End ExtractCode.
End Extract.

(* ===================================================================== *)
(** * Vocabulary of the statements *)
(* ===================================================================== *)

(** The words of the specification: a row is of the latest cycle when no row
    of the table has a greater [snapshot_time]. *)
Definition is_latest (rows : list Row) (r : Row) : bool :=
  forallb (fun r' => String.leb (snapshot_time r') (snapshot_time r)) rows.

(** [e1] may stand before [e2] in the ranking. *)
Definition avg_bikes_ge (e1 e2 : Ranking.t) : Prop :=
  Sql.ge (Ranking.avg_bikes e1) (Ranking.avg_bikes e2).

(** A row whose capacity [num_bikes_available + num_docks_available] is 0. *)
Definition zero_capacity (r : Row) : Prop :=
  Sql.add (num_bikes_available r) (num_docks_available r) = Some 0%Z.

(** The injected fault is met while a batch of [n] rows is written. *)
Definition fault_hits (f : fault) (n : nat) : bool :=
  match f with
  | NoFault => false
  | InsertFails k => Nat.ltb k n
  | _ => true
  end.

(** The connection at the moment the fault raises: the rows inserted so
    far are pending in it. *)
Definition conn_at_fault (f : fault) (rows : list Row) : option Connection :=
  match f with
  | ConnectFails => None
  | InsertFails k => Some (mkConn (firstn k rows) false)
  | CommitFails => Some (mkConn rows false)
  | _ => Some (mkConn [] false)
  end.

(** The variable [conn] when the function is left after a fault. *)
Definition conn_after (f : fault) : option Connection :=
  match f with
  | ConnectFails => None
  | _ => Some (mkConn [] true)
  end.

(** No connection is left open, and nothing is left pending in it. *)
Definition released (c : option Connection) : Prop :=
  match c with
  | None => True
  | Some k => closed k = true /\ pending k = []
  end.

(** The table when the loader is left after a fault: created, if it was
    missing, once [CREATE TABLE] has run; its rows as before. *)
Definition table_after_fault (f : fault) (w : World) : option (list Row) :=
  match f with
  | ConnectFails | ExecuteFails => table w
  | _ => Some (disk w)
  end.

Definition with_conn (w : World) (c : option Connection) : World :=
  mkWorld (table w) c (ticks w) (out w).

Definition shown (w : World) (m : msg) : World :=
  mkWorld (table w) (conn w) (ticks w) (out w ++ [m]).

Definition ticked (w : World) : World :=
  mkWorld (table w) (conn w) (S (ticks w)) (out w).

(** A SELECT raises in SQLite: the storage fault strikes it, or the table
    is missing. *)
Definition select_fails (f : fault) (w : World) : bool :=
  match f with
  | ExecuteFails => true
  | _ => match table w with
         | None => true
         | Some _ => false
         end
  end.

(** A count fits SQLite's 64-bit INTEGER: binding it does not raise
    [OverflowError]. *)
Definition fits_int64 (x : option Z) : bool :=
  match x with
  | None => true
  | Some v => ((Sql.INT64_MIN <=? v) && (v <=? Sql.INT64_MAX))%Z
  end.

Definition bindable (s : Station.t) : bool :=
  fits_int64 (Station.free_bikes s) && fits_int64 (Station.empty_slots s).

(** The fetch fails as the code sees it: no answer, or a 4xx or 5xx status. *)
Definition fetch_fails (h : http) : bool :=
  match h with
  | TransportError => true
  | Response status_code _ => ((400 <=? status_code) && (status_code <? 600))%Z
  end.

(** The answer decodes to a document: the cycle reaches its load step. *)
Definition fetch_decodes (h : http) : bool :=
  match h with
  | Response status_code (inr _) => negb (fetch_fails h)
  | _ => false
  end.

(** The fetch fails in the wider sense of "any status outside 200..299". *)
Definition fetch_fails_non_2xx (h : http) : bool :=
  match h with
  | TransportError => true
  | Response status_code _ => negb ((200 <=? status_code) && (status_code <? 300))%Z
  end.

(** Sample data used to run the definitions. *)
Definition sample_station : Station.t :=
  Station.mk (Some "S1"%string) (Some "Meriadeck"%string)
             (Some 5%Z) (Some 5%Z) (Some (4484 # 100)) (Some (-58 # 100)).

Definition sample_doc : ApiDoc :=
  mkDoc (Some (mkNetwork (Some [sample_station]))).

Definition sample_clock (n : nat) : string := "2026-01-01T00:00:00"%string.

(** A database file that has no table yet. *)
Definition empty_world : World := mkWorld None None 0 [].

Definition sample_row (t : string) (bikes docks : option Z) : Row :=
  mkRow t (Some "S1"%string) (Some "Meriadeck"%string) bikes docks None None.

(** The stations a cycle gets out of the network answer, when it gets any:
    the fetch did not fail and the body decoded. *)
Definition fetched_stations (h : http) : option (list Station.t) :=
  match h with
  | Response status_code (inr data) =>
      if fetch_fails h then None else Some (get_stations data)
  | _ => None
  end.

(** The storage fault makes a SELECT raise. *)
Definition read_fails (f : fault) : bool :=
  match f with
  | ConnectFails | ExecuteFails => true
  | _ => false
  end.

(** The [GROUP BY] key an entry of the ranking stands for. *)
Definition entry_key (e : Ranking.t) : group_key :=
  (Ranking.station_id e, Ranking.name e).

(** The [GROUP BY] keys of the table, and the number of entries that
    [LIMIT] leaves in the ranking. *)
Definition group_keys (rows : list Row) : list group_key :=
  distinct (map key_of rows).








(** The counts of a row are not negative, where they are not NULL. *)
Definition counts_non_negative (r : Row) : Prop :=
  match num_bikes_available r with Some b => (0 <= b)%Z | None => True end /\
  match num_docks_available r with Some d => (0 <= d)%Z | None => True end.

(** The sum of the [snapshots_count] column of a result. *)
Definition total_snapshots (l : list Ranking.t) : Z :=
  Sql.Zsum (map Ranking.snapshots_count l).

(** A table of eleven stations, one snapshot each, with 1 to 11 bikes. *)
Definition sample_table : list Row :=
  map (fun p : string * Z =>
         mkRow "2026-01-01T00:00:00" (Some (fst p)) None
               (Some (snd p)) (Some 10%Z) None None)
      [("A", 1); ("B", 2); ("C", 3); ("D", 4); ("E", 5); ("F", 6);
       ("G", 7); ("H", 8); ("I", 9); ("J", 10); ("K", 11)]%string%Z.

(** The line the analysis prints for an entry whose station id is [sid];
    a NULL utilization is printed as zero. *)
Definition ranking_line (sid : string) (row : Ranking.t) : msg :=
  MsgRankingRow sid (Ranking.name row) (Ranking.snapshots_count row)
                (match Ranking.avg_utilization_percent row with
                 | Some u => u
                 | None => 0%Q
                 end).

(** The lines of the entries that stand before the first entry without a
    station id. *)
Fixpoint printed_lines (results : list Ranking.t) : list msg :=
  match results with
  | [] => []
  | row :: results' =>
      match Ranking.station_id row with
      | None => []
      | Some sid => ranking_line sid row :: printed_lines results'
      end
  end.

Definition all_have_station_id (results : list Ranking.t) : bool :=
  forallb (fun row => match Ranking.station_id row with
                      | Some _ => true
                      | None => false
                      end) results.

(** The body of the [while True] loop of extract.py: the clock is read for
    the start line, the cycle and then the analysis run, the clock is read
    for the end line, and the process sleeps.  The two log lines carry only
    the time of day and are not kept in [out]; sleeping does not change the
    world. *)
Definition loop_body (env : Env) : M unit :=
  (_ <- datetime_now_isoformat env ;;
   Extract.run_ingestion_cycle env ;;
   Extract.analyze_and_rank_stations env ;;
   _ <- datetime_now_isoformat env ;;
   ret tt)%py.

(** The loop, interrupted after as many turns as there are environments;
    each turn meets its own network answer, clock and storage fault. *)
Fixpoint main_loop (envs : list Env) : M unit :=
  match envs with
  | [] => ret tt
  | env :: envs' => (loop_body env ;; main_loop envs')%py
  end.

(* ===================================================================== *)
(** * Facts about the byte-wise order of TEXT values *)
(* ===================================================================== *)

Section TextOrder.

Lemma text_compare_refl (s : string) : String.compare s s = Eq.
Proof.
  induction s as [|c s IH]; simpl; [reflexivity|].
  unfold Ascii.compare. rewrite N.compare_refl. exact IH.
Qed.

Lemma text_leb_refl (s : string) : String.leb s s = true.
Proof. unfold String.leb. now rewrite text_compare_refl. Qed.

Lemma text_ltb_irrefl (s : string) : String.ltb s s = false.
Proof. unfold String.ltb. now rewrite text_compare_refl. Qed.

Lemma text_ltb_leb (a b : string) : String.ltb a b = true -> String.leb a b = true.
Proof. unfold String.ltb, String.leb. now destruct (String.compare a b). Qed.

Lemma text_leb_false_ltb (a b : string) :
  String.leb a b = false -> String.ltb b a = true.
Proof.
  unfold String.ltb, String.leb. rewrite (String.compare_antisym a b).
  now destruct (String.compare b a).
Qed.

Lemma text_leb_trans (a : string) :
  forall b c, String.leb a b = true -> String.leb b c = true -> String.leb a c = true.
Proof.
  induction a as [|x a IH]; intros [|y b] [|z c]; unfold String.leb; simpl;
    try easy.
  unfold Ascii.compare.
  destruct (N.compare_spec (N_of_ascii x) (N_of_ascii y)) as [Hxy|Hxy|Hxy];
    destruct (N.compare_spec (N_of_ascii y) (N_of_ascii z)) as [Hyz|Hyz|Hyz];
    destruct (N.compare_spec (N_of_ascii x) (N_of_ascii z)) as [Hxz|Hxz|Hxz];
    try easy; try lia.
  exact (IH b c).
Qed.

Lemma text_ltb_neq (a b : string) : String.ltb a b = true -> String.eqb a b = false.
Proof.
  intros H. destruct (String.eqb_spec a b) as [->|]; [|reflexivity].
  now rewrite text_ltb_irrefl in H.
Qed.

Lemma max_text_ge_l (a b : string) : String.leb a (max_text a b) = true.
Proof.
  unfold max_text. destruct (String.leb a b) eqn:E; [exact E|apply text_leb_refl].
Qed.

Lemma max_text_ge_r (a b : string) : String.leb b (max_text a b) = true.
Proof.
  unfold max_text. destruct (String.leb a b) eqn:E; [apply text_leb_refl|].
  apply text_ltb_leb. now apply text_leb_false_ltb.
Qed.

Lemma max_text_cases (a b : string) : max_text a b = a \/ max_text a b = b.
Proof. unfold max_text. destruct (String.leb a b); auto. Qed.

(** The fold of [MAX] returns an element, above the start and above all. *)
Lemma fold_max_text (l : list string) :
  forall a,
    let m := fold_left max_text l a in
    (m = a \/ In m l) /\ String.leb a m = true /\
    (forall x, In x l -> String.leb x m = true).
Proof.
  induction l as [|b l IH]; intros a; simpl.
  - repeat split; auto using text_leb_refl.
  - destruct (IH (max_text a b)) as (Hin & Hge & Hall).
    repeat split.
    + destruct Hin as [Hin|Hin]; [|now auto].
      rewrite Hin. destruct (max_text_cases a b) as [->| ->]; auto.
    + eapply text_leb_trans; [apply max_text_ge_l|exact Hge].
    + intros x [<-|Hx]; [|now apply Hall].
      eapply text_leb_trans; [apply max_text_ge_r|exact Hge].
Qed.

End TextOrder.

(* ===================================================================== *)
(** * Facts about the latest-snapshot query *)
(* ===================================================================== *)

Lemma filter_none {A : Type} (f : A -> bool) (l : list A) :
  (forall x, In x l -> f x = false) -> filter f l = [].
Proof.
  induction l as [|a l IH]; intros H; simpl; [reflexivity|].
  rewrite (H a (or_introl eq_refl)). apply IH. intros x Hx. apply H. now right.
Qed.

Lemma max_snapshot_time_spec (rows : list Row) (m : string) :
  max_snapshot_time rows = Some m ->
  (exists r, In r rows /\ snapshot_time r = m) /\
  (forall r, In r rows -> String.leb (snapshot_time r) m = true).
Proof.
  destruct rows as [|r0 rows]; simpl; [discriminate|].
  intros [= <-].
  destruct (fold_max_text (map snapshot_time rows) (snapshot_time r0))
    as (Hin & Hge & Hall).
  split.
  - destruct Hin as [Hin|Hin].
    + exists r0. auto.
    + apply in_map_iff in Hin. destruct Hin as (r & Hr & Hin).
      exists r. auto.
  - intros r [<-|Hr]; [exact Hge|].
    apply Hall. now apply in_map.
Qed.

Lemma is_latest_iff_max (rows : list Row) (m : string) (r : Row) :
  max_snapshot_time rows = Some m ->
  In r rows ->
  is_latest rows r = String.eqb (snapshot_time r) m.
Proof.
  intros Hm Hr. destruct (max_snapshot_time_spec _ _ Hm) as ((r1 & Hr1 & E1) & Hall).
  destruct (String.eqb_spec (snapshot_time r) m) as [E|NE].
  - unfold is_latest. apply forallb_forall. intros r' Hr'. rewrite E. now apply Hall.
  - destruct (is_latest rows r) eqn:L; [|reflexivity].
    unfold is_latest in L. rewrite forallb_forall in L.
    specialize (L r1 Hr1). rewrite E1 in L.
    exfalso. apply NE. apply String.leb_antisym; [now apply Hall|exact L].
Qed.

Lemma SQL_LATEST_QUERY_is_filter (rows : list Row) :
  SQL_LATEST_QUERY rows = filter (is_latest rows) rows.
Proof.
  unfold SQL_LATEST_QUERY. destruct (max_snapshot_time rows) as [m|] eqn:Hm.
  - apply filter_ext_in. intros r Hr. symmetry. now apply is_latest_iff_max.
  - destruct rows; [reflexivity|discriminate].
Qed.

(** After a batch stamped [t], above every stamp already stored, the latest
    rows are the batch. *)
Lemma SQL_LATEST_QUERY_after_append (old batch : list Row) (t : string) :
  batch <> [] ->
  (forall r, In r old -> String.ltb (snapshot_time r) t = true) ->
  (forall r, In r batch -> snapshot_time r = t) ->
  SQL_LATEST_QUERY (old ++ batch) = batch.
Proof.
  intros Hne Hold Hnew. rewrite SQL_LATEST_QUERY_is_filter.
  assert (Hall : forall r, In r (old ++ batch) -> String.leb (snapshot_time r) t = true).
  { intros r Hr. apply in_app_or in Hr. destruct Hr as [Hr|Hr].
    - apply text_ltb_leb. now apply Hold.
    - rewrite (Hnew r Hr). apply text_leb_refl. }
  destruct batch as [|b0 batch]; [congruence|].
  rewrite filter_app.
  replace (filter (is_latest (old ++ b0 :: batch)) old) with (@nil Row).
  - rewrite app_nil_l. apply forallb_filter_id. apply forallb_forall. intros r Hr.
    unfold is_latest. apply forallb_forall. intros r' Hr'.
    rewrite (Hnew r Hr). now apply Hall.
  - symmetry. apply filter_none. intros r Hr.
    destruct (is_latest (old ++ b0 :: batch) r) eqn:L; [|reflexivity].
    unfold is_latest in L. rewrite forallb_forall in L.
    assert (Hb : In b0 (old ++ b0 :: batch)) by (apply in_or_app; right; now left).
    specialize (L b0 Hb). rewrite (Hnew b0 (or_introl eq_refl)) in L.
    specialize (Hold r Hr).
    assert (E : snapshot_time r = t)
      by (apply String.leb_antisym; [now apply text_ltb_leb|exact L]).
    rewrite E in Hold. now rewrite text_ltb_irrefl in Hold.
Qed.

(* ===================================================================== *)
(** * Facts about the ranking query *)
(* ===================================================================== *)

Section SqlOrder.

Lemma sql_ge_trans (x y z : option Q) : Sql.ge x y -> Sql.ge y z -> Sql.ge x z.
Proof.
  destruct x as [a|], y as [b|], z as [c|]; simpl; try easy.
  intros H1 H2. now apply Qle_trans with b.
Qed.

Lemma sql_gtb_true_ge (x y : option Q) : Sql.gtb x y = true -> Sql.ge x y.
Proof.
  destruct x as [a|], y as [b|]; simpl; try easy.
  intros H. apply negb_true_iff in H.
  apply Qlt_le_weak. apply Qnot_le_lt. intros L.
  apply Qle_bool_iff in L. congruence.
Qed.

Lemma sql_gtb_false_ge (x y : option Q) : Sql.gtb x y = false -> Sql.ge y x.
Proof.
  destruct x as [a|], y as [b|]; simpl; try easy.
  intros H. apply negb_false_iff in H. now apply Qle_bool_iff.
Qed.

End SqlOrder.

Lemma insert_desc_In (e x : Ranking.t) (l : list Ranking.t) :
  In x (insert_desc e l) <-> x = e \/ In x l.
Proof.
  induction l as [|y l IH]; simpl.
  - intuition.
  - destruct (Sql.gtb (Ranking.avg_bikes y) (Ranking.avg_bikes e)); simpl.
    + rewrite IH. intuition.
    + intuition.
Qed.

Lemma insert_desc_length (e : Ranking.t) (l : list Ranking.t) :
  List.length (insert_desc e l) = S (List.length l).
Proof.
  induction l as [|y l IH]; simpl; [reflexivity|].
  destruct (Sql.gtb (Ranking.avg_bikes y) (Ranking.avg_bikes e)); simpl; auto.
Qed.

Lemma insert_desc_sorted (e : Ranking.t) (l : list Ranking.t) :
  StronglySorted avg_bikes_ge l -> StronglySorted avg_bikes_ge (insert_desc e l).
Proof.
  induction l as [|y l IH]; intros Hs; simpl.
  - constructor; constructor.
  - inversion Hs as [|? ? Hs' Hall]; subst.
    destruct (Sql.gtb (Ranking.avg_bikes y) (Ranking.avg_bikes e)) eqn:G.
    + constructor; [now apply IH|].
      apply Forall_forall. intros x Hx. apply insert_desc_In in Hx.
      destruct Hx as [->|Hx].
      * now apply sql_gtb_true_ge.
      * rewrite Forall_forall in Hall. now apply Hall.
    + constructor; [exact Hs|].
      apply sql_gtb_false_ge in G.
      constructor; [exact G|].
      apply Forall_forall. intros x Hx. rewrite Forall_forall in Hall.
      unfold avg_bikes_ge. eapply sql_ge_trans; [exact G|]. now apply Hall.
Qed.

Lemma order_by_sorted (l : list Ranking.t) :
  StronglySorted avg_bikes_ge (order_by_avg_bikes_desc l).
Proof.
  induction l as [|e l IH]; simpl; [constructor|now apply insert_desc_sorted].
Qed.

Lemma order_by_In (x : Ranking.t) (l : list Ranking.t) :
  In x (order_by_avg_bikes_desc l) <-> In x l.
Proof.
  induction l as [|e l IH]; simpl; [tauto|].
  rewrite insert_desc_In, IH. intuition.
Qed.

Lemma order_by_length (l : list Ranking.t) :
  List.length (order_by_avg_bikes_desc l) = List.length l.
Proof.
  induction l as [|e l IH]; simpl; [reflexivity|].
  now rewrite insert_desc_length, IH.
Qed.

Lemma firstn_In_of {A : Type} (n : nat) (x : A) :
  forall l, In x (firstn n l) -> In x l.
Proof.
  induction n as [|n IH]; intros [|a l]; simpl; try tauto.
  intros [H|H]; [now left|right; now apply IH].
Qed.

Lemma firstn_sorted {A : Type} (R : A -> A -> Prop) (n : nat) :
  forall l, StronglySorted R l -> StronglySorted R (firstn n l).
Proof.
  induction n as [|n IH]; intros l Hs; simpl; [constructor|].
  destruct l as [|a l]; [constructor|].
  inversion Hs as [|? ? Hs' Hall]; subst.
  constructor; [now apply IH|].
  apply Forall_forall. intros x Hx. rewrite Forall_forall in Hall.
  apply Hall. eapply firstn_In_of. exact Hx.
Qed.

(** Keys: the boolean test decides equality. *)
Lemma option_string_eqb_eq (x y : option string) :
  option_eqb String.eqb x y = true <-> x = y.
Proof.
  destruct x as [a|], y as [b|]; simpl; try (split; congruence).
  rewrite String.eqb_eq. split; congruence.
Qed.

Lemma key_eqb_eq (k k' : group_key) : key_eqb k k' = true <-> k = k'.
Proof.
  destruct k as [a b], k' as [a' b']. unfold key_eqb. simpl.
  rewrite andb_true_iff, !option_string_eqb_eq. split.
  - intros [-> ->]. reflexivity.
  - intros [= -> ->]. auto.
Qed.

Lemma key_eqb_refl (k : group_key) : key_eqb k k = true.
Proof. now apply key_eqb_eq. Qed.

Lemma distinct_In (k : group_key) (ks : list group_key) :
  In k (distinct ks) <-> In k ks.
Proof.
  induction ks as [|k0 ks IH]; simpl; [tauto|].
  rewrite filter_In, IH. split.
  - intros [H|[H _]]; auto.
  - intros [H|H]; [now left|].
    destruct (key_eqb k0 k) eqn:E.
    + left. now apply key_eqb_eq.
    + right. split; [exact H|reflexivity].
Qed.

Lemma insert_key_In (k x : group_key) (l : list group_key) :
  In x (insert_key k l) <-> x = k \/ In x l.
Proof.
  induction l as [|y l IH]; simpl.
  - intuition.
  - destruct (key_leb k y); simpl; [intuition|].
    rewrite IH. intuition.
Qed.

Lemma sort_keys_In (x : group_key) (l : list group_key) :
  In x (sort_keys l) <-> In x l.
Proof.
  induction l as [|k l IH]; simpl; [tauto|].
  rewrite insert_key_In, IH. intuition.
Qed.

Lemma insert_key_NoDup (k : group_key) (l : list group_key) :
  NoDup (k :: l) -> NoDup (insert_key k l).
Proof.
  induction l as [|y l IH]; intros H; simpl; [exact H|].
  destruct (key_leb k y); [exact H|].
  inversion H as [|? ? Hk Hyl]; subst. inversion Hyl as [|? ? Hy Hl]; subst.
  constructor.
  - rewrite insert_key_In. intros [->|Hin]; [|contradiction].
    apply Hk. now left.
  - apply IH. constructor; [|exact Hl]. intros Hin. apply Hk. now right.
Qed.

Lemma sort_keys_NoDup (l : list group_key) : NoDup l -> NoDup (sort_keys l).
Proof.
  induction l as [|k l IH]; intros H; simpl; [constructor|].
  inversion H as [|? ? Hk Hl]; subst.
  apply insert_key_NoDup. constructor; [|now apply IH].
  now rewrite sort_keys_In.
Qed.

(** Every row's group has its entry in the grouped result. *)
Lemma grouped_covers (rows : list Row) (r : Row) :
  In r rows ->
  In (aggregate (key_of r) (group_rows (key_of r) rows)) (grouped rows).
Proof.
  intros Hr. unfold grouped.
  apply (in_map (fun k => aggregate k (group_rows k rows))).
  apply sort_keys_In. apply distinct_In. now apply in_map.
Qed.

(** Every entry of the ranking is the aggregate of one group of the table. *)
Lemma ranking_entries_are_aggregates (rows : list Row) (e : Ranking.t) :
  In e (SQL_RANKING_QUERY rows) ->
  exists r, In r rows /\ e = aggregate (key_of r) (group_rows (key_of r) rows).
Proof.
  unfold SQL_RANKING_QUERY. intros H. apply firstn_In_of in H.
  apply (proj1 (order_by_In _ _)) in H. unfold grouped in H. apply in_map_iff in H.
  destruct H as (k & <- & Hk). apply (proj1 (sort_keys_In _ _)) in Hk.
  apply (proj1 (distinct_In _ _)) in Hk.
  apply in_map_iff in Hk. destruct Hk as (r & <- & Hr). now exists r.
Qed.

Lemma ranking_length (rows : list Row) :
  List.length (SQL_RANKING_QUERY rows) =
  Nat.min RANKING_LIMIT (List.length (grouped rows)).
Proof.
  unfold SQL_RANKING_QUERY. now rewrite length_firstn, order_by_length.
Qed.

(** Aggregates skip NULL. *)
Lemma non_null_app {A : Type} (xs ys : list (option A)) :
  Sql.non_null (xs ++ ys) = Sql.non_null xs ++ Sql.non_null ys.
Proof.
  induction xs as [|[a|] xs IH]; simpl; [reflexivity| |exact IH].
  now rewrite IH.
Qed.

Lemma non_null_all_null {A : Type} (xs : list (option A)) :
  (forall x, In x xs -> x = None) -> Sql.non_null xs = [].
Proof.
  induction xs as [|[a|] xs IH]; intros H; simpl; [reflexivity| |].
  - specialize (H (Some a) (or_introl eq_refl)). discriminate.
  - apply IH. intros x Hx. apply H. now right.
Qed.

Lemma sum_skips_null (xs ys : list (option Z)) :
  Sql.sum (xs ++ None :: ys) = Sql.sum (xs ++ ys).
Proof. unfold Sql.sum. now rewrite !non_null_app. Qed.

Lemma avg_skips_null (xs ys : list (option Q)) :
  Sql.avg (xs ++ None :: ys) = Sql.avg (xs ++ ys).
Proof. unfold Sql.avg. now rewrite !non_null_app. Qed.

Lemma utilization_ratio_zero_capacity (r : Row) :
  Sql.add (num_bikes_available r) (num_docks_available r) = Some 0%Z ->
  utilization_ratio r = None.
Proof.
  unfold utilization_ratio. intros ->.
  destruct (num_bikes_available r); reflexivity.
Qed.

(* ===================================================================== *)
(** * Running the Python code *)
(* ===================================================================== *)

Lemma disk_of_table (rows : list Row) c tk o :
  disk (mkWorld (Some rows) c tk o) = rows.
Proof. reflexivity. Qed.

(** Without a fault on its rows, [executemany] leaves them all pending, in
    order, in the connection's transaction. *)
Lemma executemany_from_ok env rows :
  forall i p d tk o,
    (forall j, (i <= j < i + List.length rows)%nat -> insert_fails_at env j = false) ->
    executemany_from env i rows (mkWorld (Some d) (Some (mkConn p false)) tk o) =
    (inr tt, mkWorld (Some d) (Some (mkConn (p ++ rows) false)) tk o).
Proof.
  induction rows as [|r rows IH]; intros i p d tk o H; simpl.
  - now rewrite app_nil_r.
  - unfold bind. rewrite (H i) by (simpl; lia).
    unfold insert_row, on_conn, assign_conn. simpl.
    rewrite IH.
    + now rewrite <- app_assoc.
    + intros j Hj. apply H. simpl. lia.
Qed.

(** A fault on the row of index [k] raises with the rows before it pending. *)
Lemma executemany_from_fails env rows :
  forall i p d tk o k,
    storage_fault env = InsertFails k ->
    (i <= k < i + List.length rows)%nat ->
    executemany_from env i rows (mkWorld (Some d) (Some (mkConn p false)) tk o) =
    (inl SqliteError,
     mkWorld (Some d) (Some (mkConn (p ++ firstn (k - i) rows) false)) tk o).
Proof.
  induction rows as [|r rows IH]; intros i p d tk o k F H; simpl in *; [lia|].
  unfold bind. unfold insert_fails_at at 1. rewrite F.
  destruct (Nat.eqb_spec k i) as [->|NE].
  - rewrite Nat.sub_diag. simpl. now rewrite app_nil_r.
  - unfold insert_row, on_conn, assign_conn. simpl.
    rewrite (IH (S i) (p ++ [r]) d tk o k F) by lia.
    replace (k - i)%nat with (S (k - S i)) by lia.
    simpl. now rewrite <- app_assoc.
Qed.

(** Run equations of the primitives. *)
Lemma bind_run {A B : Type} (m : M A) (k : A -> M B) (w : World) :
  bind m k w = match m w with
               | (inl e, w') => (inl e, w')
               | (inr a, w') => k a w'
               end.
Proof. reflexivity. Qed.

Lemma connect_run env w c :
  sqlite3_connect env (with_conn w c) =
  match storage_fault env with
  | ConnectFails => (inl SqliteError, with_conn w c)
  | _ => (inr tt, with_conn w (Some (mkConn [] false)))
  end.
Proof. unfold sqlite3_connect. now destruct (storage_fault env). Qed.

Lemma create_table_run env w p :
  execute_create_table env (with_conn w (Some (mkConn p false))) =
  match storage_fault env with
  | ExecuteFails => (inl SqliteError, with_conn w (Some (mkConn p false)))
  | _ => (inr tt, mkWorld (Some (disk w)) (Some (mkConn p false)) (ticks w) (out w))
  end.
Proof.
  unfold execute_create_table, on_conn. simpl. now destruct (storage_fault env).
Qed.

Lemma executemany_run env rows d p tk o :
  executemany env rows (mkWorld (Some d) (Some (mkConn p false)) tk o) =
  executemany_from env 0 rows (mkWorld (Some d) (Some (mkConn p false)) tk o).
Proof. reflexivity. Qed.

Lemma commit_run env d p tk o :
  commit env (mkWorld (Some d) (Some (mkConn p false)) tk o) =
  match storage_fault env with
  | CommitFails => (inl SqliteError, mkWorld (Some d) (Some (mkConn p false)) tk o)
  | _ => (inr tt, mkWorld (Some (d ++ p)) (Some (mkConn [] false)) tk o)
  end.
Proof.
  unfold commit, on_conn. simpl. now destruct (storage_fault env).
Qed.

(** The body of the [try] of both loaders, up to the commit: either the
    fault raises [sqlite3.Error] with the rows of the file untouched, or
    what follows runs on the file extended by the batch. *)
Lemma transaction_run {A : Type} env rows (k : M A) w :
  (sqlite3_connect env ;; execute_create_table env ;;
   executemany env rows ;; commit env ;; k) (with_conn w None) =
  if fault_hits (storage_fault env) (List.length rows)
  then (inl SqliteError,
        mkWorld (table_after_fault (storage_fault env) w)
                (conn_at_fault (storage_fault env) rows) (ticks w) (out w))
  else k (mkWorld (Some (disk w ++ rows)) (Some (mkConn [] false)) (ticks w) (out w)).
Proof.
  rewrite bind_run, connect_run.
  destruct (storage_fault env) as [| | |n|] eqn:F;
    try reflexivity;
    rewrite bind_run, create_table_run, F; try reflexivity;
    rewrite bind_run, executemany_run.
  - rewrite executemany_from_ok
      by (intros j _; unfold insert_fails_at; now rewrite F).
    rewrite bind_run, commit_run, F. reflexivity.
  - unfold fault_hits, conn_at_fault.
    destruct (Nat.ltb_spec n (List.length rows)) as [L|L].
    + rewrite (executemany_from_fails env rows 0%nat [] (disk w) (ticks w) (out w) n F)
        by lia.
      now rewrite Nat.sub_0_r.
    + rewrite executemany_from_ok
        by (intros j Hj; unfold insert_fails_at; rewrite F; apply Nat.eqb_neq; lia).
      rewrite bind_run, commit_run, F. reflexivity.
  - rewrite executemany_from_ok
      by (intros j _; unfold insert_fails_at; now rewrite F).
    rewrite bind_run, commit_run, F. reflexivity.
Qed.

(** The result and the final world of a load of a non-empty batch. *)
Lemma App_load_run env stations t w :
  stations <> [] ->
  App.load_data_to_sqlite env stations t w =
  if fault_hits (storage_fault env) (List.length stations)
  then (inr (Some false),
        mkWorld (table_after_fault (storage_fault env) w)
                (conn_after (storage_fault env)) (ticks w)
                (out w ++ [MsgSqliteError]))
  else (inr (Some true),
        mkWorld (Some (disk w ++ map (make_row t) stations))
                (Some (mkConn [] true)) (ticks w) (out w)).
Proof.
  intros Hne. destruct stations as [|s0 stations]; [congruence|].
  unfold App.load_data_to_sqlite. cbv zeta.
  rewrite bind_run. unfold assign_conn at 1, is_empty. cbv beta iota.
  unfold try_finally, try_except.
  change (mkWorld (table w) None (ticks w) (out w)) with (with_conn w None).
  rewrite transaction_run. rewrite length_map.
  destruct (fault_hits (storage_fault env) (List.length (s0 :: stations))) eqn:H.
  - destruct (storage_fault env); try discriminate; reflexivity.
  - reflexivity.
Qed.

Lemma Extract_load_run env stations t w :
  stations <> [] ->
  Extract.load_data_to_sqlite env stations t w =
  if fault_hits (storage_fault env) (List.length stations)
  then (inr tt,
        mkWorld (table_after_fault (storage_fault env) w)
                (conn_after (storage_fault env)) (ticks w)
                (out w ++ [MsgSqliteError]))
  else (inr tt,
        mkWorld (Some (disk w ++ map (make_row t) stations))
                (Some (mkConn [] true)) (ticks w)
                (out w ++ [MsgLoaded (List.length stations)])).
Proof.
  intros Hne. destruct stations as [|s0 stations]; [congruence|].
  unfold Extract.load_data_to_sqlite. cbv zeta.
  rewrite bind_run. unfold assign_conn at 1, is_empty. cbv beta iota.
  unfold try_finally, try_except.
  change (mkWorld (table w) None (ticks w) (out w)) with (with_conn w None).
  rewrite transaction_run. rewrite !length_map.
  destruct (fault_hits (storage_fault env) (List.length (s0 :: stations))) eqn:H.
  - destruct (storage_fault env); try discriminate; reflexivity.
  - reflexivity.
Qed.

(** A fault leaves the rows of the table as they were. *)
Lemma disk_after_fault (f : fault) (w : World) c tk o :
  disk (mkWorld (table_after_fault f w) c tk o) = disk w.
Proof. destruct f; reflexivity. Qed.

Lemma App_load_empty env t w :
  App.load_data_to_sqlite env [] t w =
  (inr None, mkWorld (table w) None (ticks w) (out w)).
Proof. reflexivity. Qed.

Lemma Extract_load_empty env t w :
  Extract.load_data_to_sqlite env [] t w =
  (inr tt, mkWorld (table w) None (ticks w) (out w ++ [MsgNoData])).
Proof. reflexivity. Qed.

Lemma App_load_returns env stations t w :
  exists v w', App.load_data_to_sqlite env stations t w = (inr v, w').
Proof.
  destruct stations as [|s0 stations].
  - rewrite App_load_empty. eauto.
  - rewrite App_load_run by discriminate.
    destruct (fault_hits _ _); eauto.
Qed.

Lemma Extract_load_returns env stations t w :
  exists w', Extract.load_data_to_sqlite env stations t w = (inr tt, w').
Proof.
  destruct stations as [|s0 stations].
  - rewrite Extract_load_empty. eauto.
  - rewrite Extract_load_run by discriminate.
    destruct (fault_hits _ _); eauto.
Qed.

(** The cycle, case by case on what the network answers. *)
Lemma App_cycle_run env w :
  App.run_ingestion_cycle env w =
  match http_reply env with
  | TransportError => (inr (Some false), shown w MsgApiError)
  | Response status_code body =>
      if ((400 <=? status_code) && (status_code <? 600))%Z
      then (inr (Some false), shown w MsgApiError)
      else match body with
           | inl RequestException => (inr (Some false), shown w MsgApiError)
           | inl _ => (inr (Some false), shown w MsgUnexpected)
           | inr data =>
               App.load_data_to_sqlite env (get_stations data)
                                       (clock env (ticks w)) (ticked w)
           end
  end.
Proof.
  unfold App.run_ingestion_cycle, try_except. cbv zeta.
  rewrite bind_run. unfold requests_get.
  destruct (http_reply env) as [|status_code body]; [reflexivity|].
  unfold ret at 1. cbv beta iota.
  rewrite bind_run. unfold raise_for_status. cbv zeta. cbn [fst].
  destruct ((400 <=? status_code) && (status_code <? 600))%Z; [reflexivity|].
  unfold ret at 1. cbv beta iota.
  rewrite bind_run. unfold response_json. cbn [snd].
  destruct body as [e|data].
  - destruct e; reflexivity.
  - unfold ret at 1. cbv beta iota.
    rewrite bind_run. unfold datetime_now_isoformat. cbv beta iota.
    fold (ticked w).
    destruct (App_load_returns env (get_stations data) (clock env (ticks w)) (ticked w))
      as (v & w' & E).
    rewrite E. reflexivity.
Qed.

Lemma Extract_cycle_run env w :
  Extract.run_ingestion_cycle env w =
  match http_reply env with
  | TransportError => (inr tt, shown w MsgApiError)
  | Response status_code body =>
      if ((400 <=? status_code) && (status_code <? 600))%Z
      then (inr tt, shown w MsgApiError)
      else match body with
           | inl RequestException => (inr tt, shown w MsgApiError)
           | inl _ => (inr tt, shown w MsgUnexpected)
           | inr data =>
               Extract.load_data_to_sqlite env (get_stations data)
                                           (clock env (ticks w)) (ticked w)
           end
  end.
Proof.
  unfold Extract.run_ingestion_cycle, try_except. cbv zeta.
  rewrite bind_run. unfold requests_get.
  destruct (http_reply env) as [|status_code body]; [reflexivity|].
  unfold ret at 1. cbv beta iota.
  rewrite bind_run. unfold raise_for_status. cbv zeta. cbn [fst].
  destruct ((400 <=? status_code) && (status_code <? 600))%Z; [reflexivity|].
  unfold ret at 1. cbv beta iota.
  rewrite bind_run. unfold response_json. cbn [snd].
  destruct body as [e|data].
  - destruct e; reflexivity.
  - unfold ret at 1. cbv beta iota.
    rewrite bind_run. unfold datetime_now_isoformat. cbv beta iota.
    fold (ticked w).
    destruct (Extract_load_returns env (get_stations data) (clock env (ticks w)) (ticked w))
      as (w' & E).
    rewrite E. reflexivity.
Qed.

(** A SELECT on a connection just opened. *)
Lemma execute_query_run {A : Type} env (q : list Row -> exn + A) w o :
  execute_query env q (mkWorld (table w) (Some (mkConn [] false)) (ticks w) o) =
  (if select_fails (storage_fault env) w then inl SqliteError
   else match q (disk w) with
        | inl e => inl e
        | inr a => inr a
        end,
   mkWorld (table w) (Some (mkConn [] false)) (ticks w) o).
Proof.
  unfold execute_query, on_conn, select_fails, disk. cbn [conn closed table pending].
  destruct (storage_fault env); try reflexivity;
    (destruct (table w) as [rows|]; [|reflexivity];
     rewrite app_nil_r; now destruct (q rows)).
Qed.

(** The read through pandas: every failure of the query is an exception
    that is not an [sqlite3.Error]. *)
Lemma read_sql_query_run {A : Type} env (q : list Row -> exn + A) w o :
  read_sql_query env q (mkWorld (table w) (Some (mkConn [] false)) (ticks w) o) =
  (if select_fails (storage_fault env) w then inl OtherException
   else match q (disk w) with
        | inl e => inl OtherException
        | inr a => inr a
        end,
   mkWorld (table w) (Some (mkConn [] false)) (ticks w) o).
Proof.
  unfold read_sql_query, try_except. rewrite execute_query_run.
  destruct (select_fails (storage_fault env) w); [reflexivity|].
  now destruct (q (disk w)).
Qed.

(** The latest-snapshot read, case by case. *)
Lemma App_display_run env w :
  App.get_station_data_for_display env w =
  match storage_fault env with
  | ConnectFails =>
      (inr [], mkWorld (table w) None (ticks w) (out w ++ [MsgDisplayError]))
  | _ =>
      (if select_fails (storage_fault env) w then inl OtherException
       else inr (SQL_LATEST_QUERY (disk w)),
       mkWorld (table w) (Some (mkConn [] true)) (ticks w) (out w))
  end.
Proof.
  unfold App.get_station_data_for_display, try_finally, try_except.
  rewrite bind_run. unfold assign_conn at 1. cbv beta iota.
  change (mkWorld (table w) None (ticks w) (out w)) with (with_conn w None).
  rewrite bind_run, connect_run.
  destruct (storage_fault env) eqn:F; try reflexivity;
    unfold with_conn; rewrite bind_run, read_sql_query_run, F;
    destruct (select_fails _ w); reflexivity.
Qed.

(** Printing the table only adds to what is shown, whether or not a row
    fails to format. *)
Lemma print_ranking_rows_frame (results : list Ranking.t) :
  forall w, exists r o',
      Extract.print_ranking_rows results w =
      (r, mkWorld (table w) (conn w) (ticks w) o').
Proof.
  induction results as [|row results IH]; intros w; simpl.
  - exists (inr tt), (out w). now destruct w.
  - rewrite bind_run. unfold Extract.print_ranking_row.
    destruct (Ranking.station_id row) as [sid|].
    + unfold emit at 1. cbv beta iota.
      match goal with |- context [Extract.print_ranking_rows results ?w1] =>
        destruct (IH w1) as (r & o' & E) end.
      rewrite E. simpl. eauto.
    + exists (inl OtherException), (out w). now destruct w.
Qed.

(** Every exception of the analysis is caught: it returns [None], the file
    is as before and the connection is released. *)
Lemma Extract_analyze_returns env w :
  exists c' o',
    Extract.analyze_and_rank_stations env w =
    (inr tt, mkWorld (table w) c' (ticks w) o') /\ released c'.
Proof.
  unfold Extract.analyze_and_rank_stations, try_finally, try_except.
  rewrite bind_run. unfold assign_conn at 1. cbv beta iota.
  change (mkWorld (table w) None (ticks w) (out w)) with (with_conn w None).
  rewrite bind_run, connect_run.
  assert (Hopen :
    exists r o',
      (emit MsgRankingHeader;;
       results <- execute_query env run_ranking_query;;
       (if is_empty results
        then emit MsgRankingEmpty
        else
          emit MsgRankingColumns;;
          Extract.print_ranking_rows results;; emit MsgRankingFooter))
        (with_conn w (Some (mkConn [] false))) =
      (r, mkWorld (table w) (Some (mkConn [] false)) (ticks w) o')).
  { rewrite bind_run. unfold emit at 1, with_conn. cbv beta iota.
    cbn [table conn ticks out].
    rewrite bind_run, execute_query_run.
    destruct (select_fails (storage_fault env) w); [eauto|].
    destruct (run_ranking_query (disk w)) as [e|results]; [eauto|].
    destruct (is_empty results).
    - unfold emit. cbn. eauto.
    - rewrite bind_run. unfold emit at 1. cbv beta iota.
      cbn [table conn ticks out]. rewrite bind_run.
      match goal with |- context [Extract.print_ranking_rows ?l ?w1] =>
        destruct (print_ranking_rows_frame l w1) as (r & o' & E) end.
      rewrite E. cbn [table conn ticks out].
      destruct r as [e|[]]; [eauto | unfold emit; cbn; eauto]. }
  destruct (storage_fault env) eqn:F.
  2:{ exists None. eexists. split; [reflexivity|exact I]. }
  all: destruct Hopen as (r & o' & E); rewrite E;
    exists (Some (mkConn [] true)); destruct r as [[]|[]]; eexists;
    (split; [reflexivity|now split]).
Qed.
(* ===================================================================== *)
(** * Concrete runs *)
(* ===================================================================== *)

(** A fault on the second of three inserts, on a file without the table:
    one row was pending when the error was raised, none is stored, the
    connection is closed, and the table that [CREATE TABLE] made stays. *)
Example load_with_fault_on_second_insert :
  App.load_data_to_sqlite (mkEnv TransportError sample_clock (InsertFails 1))
                          [sample_station; sample_station; sample_station]
                          "2026-01-01T00:05:00" empty_world =
  (inr (Some false), mkWorld (Some []) (Some (mkConn [] true)) 0 [MsgSqliteError]) /\
  conn_at_fault (InsertFails 1)
                (map (make_row "2026-01-01T00:05:00")
                     [sample_station; sample_station; sample_station]) =
  Some (mkConn [make_row "2026-01-01T00:05:00" sample_station] false).
Proof. split; reflexivity. Qed.

(** Two cycles against a healthy API fill the table with two batches; the
    analysis then prints one line for the one station. *)
Example two_cycles_then_analysis :
  let env := mkEnv (Response 200 (inr sample_doc))
                   (fun n => if Nat.eqb n 0 then "2026-01-01T00:00:00"
                             else "2026-01-01T00:05:00")%string
                   NoFault in
  let w1 := snd (Extract.run_ingestion_cycle env empty_world) in
  let w2 := snd (Extract.run_ingestion_cycle env w1) in
  map snapshot_time (disk w2) =
  ["2026-01-01T00:00:00"; "2026-01-01T00:05:00"]%string /\
  out (snd (Extract.analyze_and_rank_stations env w2)) =
  [MsgLoaded 1; MsgLoaded 1; MsgRankingHeader; MsgRankingColumns;
   MsgRankingRow "S1" (Some "Meriadeck"%string) 2 (50 # 1); MsgRankingFooter].
Proof. split; reflexivity. Qed.

(** A group without station id stops the printed table: formatting [None]
    raises, and the analysis reports an unexpected error. *)
Example analysis_with_null_station_id :
  let env := mkEnv TransportError sample_clock NoFault in
  let w := mkWorld (Some [mkRow "2026-01-01T00:00:00" None None
                                (Some 3%Z) (Some 7%Z) None None])
                   None 0 [] in
  Extract.analyze_and_rank_stations env w =
  (inr tt, mkWorld (table w) (Some (mkConn [] true)) 0
                   [MsgRankingHeader; MsgRankingColumns; MsgAnalysisUnexpected]).
Proof. reflexivity. Qed.

(** On a database file that has no table yet, the dashboard's read raises
    the error of pandas, the analysis of the dashboard reports an
    unexpected error, and the analysis of the collector reports an SQL
    error after its header. *)
Example reads_of_a_file_without_table :
  let env := mkEnv TransportError sample_clock NoFault in
  App.get_station_data_for_display env empty_world =
  (inl OtherException, mkWorld None (Some (mkConn [] true)) 0 []) /\
  App.get_ranking_analysis env true empty_world =
  (inr [], mkWorld None (Some (mkConn [] true)) 0 [MsgAnalysisUnexpected]) /\
  Extract.analyze_and_rank_stations env empty_world =
  (inr tt, mkWorld None (Some (mkConn [] true)) 0
                   [MsgRankingHeader; MsgAnalysisSqlError]).
Proof. repeat split; reflexivity. Qed.

(** Ties in [avg_bikes] come in key order, whatever the storage order; a
    [SUM] beyond 64 bits fails the whole query. *)
Example ties_and_overflow :
  let row (sid : string) (b : Z) :=
    mkRow "2026-01-01T00:00:00" (Some sid) None (Some b) (Some 1%Z) None None in
  map Ranking.station_id (SQL_RANKING_QUERY [row "B" 3; row "A" 3; row "C" 4]%string%Z) =
  [Some "C"; Some "A"; Some "B"]%string /\
  run_ranking_query [row "A" (2 ^ 62); row "A" (2 ^ 62)]%string%Z = inl SqliteError /\
  ranking_overflows [row "A" (2 ^ 62); row "B" (2 ^ 62)]%string%Z = false.
Proof. repeat split; vm_compute; reflexivity. Qed.
(* ===================================================================== *)
(** * Properties of the snapshot store *)
(* ===================================================================== *)

(** C1. A non-empty batch appended with a stamp [t] strictly above every
    stamp already stored, and then read back with the latest-snapshot query,
    gives exactly the rows just written, in order, all stamped [t].  This
    holds for the loader of app.py and for the one of extract.py, when no
    storage fault occurs. *)
Theorem append_then_read_latest
  (env_w env_r : Env) (stations_data : list Station.t) (t : string) (w : World) :
  storage_fault env_w = NoFault ->
  storage_fault env_r = NoFault ->
  stations_data <> [] ->
  (forall r, In r (disk w) -> String.ltb (snapshot_time r) t = true) ->
  let batch := map (make_row t) stations_data in
  let app_run := App.load_data_to_sqlite env_w stations_data t w in
  let ext_run := Extract.load_data_to_sqlite env_w stations_data t w in
  fst app_run = inr (Some true) /\
  fst (App.get_station_data_for_display env_r (snd app_run)) = inr batch /\
  fst ext_run = inr tt /\
  fst (App.get_station_data_for_display env_r (snd ext_run)) = inr batch /\
  Forall (fun r => snapshot_time r = t) batch /\
  List.length batch = List.length stations_data.
Proof.
  intros Fw Fr Hne Hold batch app_run ext_run.
  assert (Hstamp : forall r, In r batch -> snapshot_time r = t).
  { intros r Hr. apply in_map_iff in Hr. now destruct Hr as (s & <- & _). }
  assert (Hbatch : batch <> []).
  { unfold batch. destruct stations_data; [congruence|discriminate]. }
  assert (Hread : SQL_LATEST_QUERY (disk w ++ batch) = batch)
    by now apply SQL_LATEST_QUERY_after_append with t.
  subst app_run ext_run.
  rewrite App_load_run, Extract_load_run by assumption.
  rewrite Fw. cbn [fault_hits fst snd].
  rewrite !App_display_run, Fr.
  cbn [fst select_fails table]. rewrite !disk_of_table.
  fold batch. rewrite Hread.
  repeat split; try reflexivity.
  - now apply Forall_forall.
  - apply length_map.
Qed.

Lemma append_then_read_latest_witness :
  let env := mkEnv TransportError sample_clock NoFault in
  let w := mkWorld (Some [sample_row "2026-01-01T00:00:00" (Some 1%Z) (Some 9%Z)])
                   None 1 [] in
  let t := "2026-01-01T00:05:00"%string in
  let stations_data := [sample_station; sample_station] in
  storage_fault env = NoFault /\
  stations_data <> [] /\
  (forall r, In r (disk w) -> String.ltb (snapshot_time r) t = true) /\
  fst (App.get_station_data_for_display env
         (snd (App.load_data_to_sqlite env stations_data t w))) =
  inr (map (make_row t) stations_data).
Proof.
  intros env w t stations_data.
  assert (H1 : storage_fault env = NoFault) by reflexivity.
  assert (H2 : stations_data <> []) by discriminate.
  assert (H3 : forall r, In r (disk w) -> String.ltb (snapshot_time r) t = true).
  { intros r [<-|[]]. reflexivity. }
  split; [exact H1|]. split; [exact H2|]. split; [exact H3|].
  exact (proj1 (proj2 (append_then_read_latest env env stations_data t w H1 H1 H2 H3))).
Defined.

(** C8, on the code.  With the storage at hand and the table in the file,
    the latest-snapshot read returns exactly the rows whose [snapshot_time]
    is the greatest one stored, in storage order, and the empty frame when
    the table has no row.  On a file that has no table yet the read does
    not return the empty frame: the error that pandas raises is not an
    [sqlite3.Error], the handler that returns the empty frame does not
    catch it, and it reaches the caller.  In every case the file is left as
    it was and the connection is closed. *)
Theorem read_latest_is_max_snapshot (env : Env) (w : World) :
  storage_fault env = NoFault ->
  let run := App.get_station_data_for_display env w in
  (forall rows, table w = Some rows ->
     fst run = inr (filter (is_latest rows) rows) /\
     (forall r, In r (filter (is_latest rows) rows) <->
                In r rows /\ max_snapshot_time rows = Some (snapshot_time r)) /\
     (forall r m, In r rows -> max_snapshot_time rows = Some m ->
                  String.leb (snapshot_time r) m = true) /\
     (rows = [] -> fst run = inr [])) /\
  (table w = None -> fst run = inl OtherException /\ fst run <> inr []) /\
  snd run = mkWorld (table w) (Some (mkConn [] true)) (ticks w) (out w).
Proof.
  intros F run. subst run. rewrite App_display_run, F. cbn [fst snd].
  split; [|split; [|reflexivity]].
  - intros rows T. unfold select_fails, disk. rewrite T.
    rewrite SQL_LATEST_QUERY_is_filter.
    split; [reflexivity|]. split; [|split].
    + intros r. rewrite filter_In. split.
      * intros [Hr L]. split; [exact Hr|].
        destruct (max_snapshot_time rows) as [m|] eqn:Hm.
        -- rewrite (is_latest_iff_max _ _ _ Hm Hr) in L.
           apply String.eqb_eq in L. now rewrite L.
        -- destruct rows; [contradiction|discriminate].
      * intros [Hr Hm]. split; [exact Hr|].
        rewrite (is_latest_iff_max _ _ _ Hm Hr). apply String.eqb_refl.
    + intros r m Hr Hm. now apply (max_snapshot_time_spec _ _ Hm).
    + intros E. now rewrite E.
  - intros T. unfold select_fails. rewrite T. split; [reflexivity|discriminate].
Qed.

Lemma read_latest_is_max_snapshot_witness :
  let env := mkEnv TransportError sample_clock NoFault in
  let old := sample_row "2026-01-01T00:00:00" (Some 1%Z) (Some 9%Z) in
  let new := sample_row "2026-01-01T00:05:00" (Some 2%Z) (Some 8%Z) in
  let w := mkWorld (Some [old; new; old; new]) None 0 [] in
  storage_fault env = NoFault /\
  fst (App.get_station_data_for_display env w) = inr [new; new] /\
  table empty_world = None /\
  fst (App.get_station_data_for_display env empty_world) = inl OtherException.
Proof.
  intros env old new w.
  split; [reflexivity|]. split.
  - exact (proj1 (proj1 (read_latest_is_max_snapshot env w eq_refl)
                        [old; new; old; new] eq_refl)).
  - split; [reflexivity|].
    exact (proj1 (proj1 (proj2 (read_latest_is_max_snapshot env empty_world eq_refl))
                        eq_refl)).
Defined.

(** C7. The write of a batch is all-or-nothing.  When a storage fault is
    met while a non-empty batch (of counts that SQLite can hold) is written,
    the [sqlite3.Error] is caught: the loader returns without raising
    (app.py returns [False]), the SQLite error is shown, the rows of the
    table are exactly those it had, and a latest-snapshot read that finds
    the table returns what the old rows give, none of the batch.  A table
    that was there is left as it was; a table that was missing has been
    created, empty, when the fault came after [CREATE TABLE], which the
    rollback does not undo.  On every run, failed or not, the connection is
    closed, if one was opened, with nothing pending. *)
Theorem append_all_or_nothing
  (env : Env) (stations_data : list Station.t) (t : string) (w : World) :
  let app_run := App.load_data_to_sqlite env stations_data t w in
  let ext_run := Extract.load_data_to_sqlite env stations_data t w in
  released (conn (snd app_run)) /\
  released (conn (snd ext_run)) /\
  (stations_data <> [] ->
   forallb bindable stations_data = true ->
   fault_hits (storage_fault env) (List.length stations_data) = true ->
   fst app_run = inr (Some false) /\
   fst ext_run = inr tt /\
   disk (snd app_run) = disk w /\
   disk (snd ext_run) = disk w /\
   table (snd app_run) = table_after_fault (storage_fault env) w /\
   table (snd ext_run) = table_after_fault (storage_fault env) w /\
   (table w <> None -> table (snd app_run) = table w) /\
   out (snd app_run) = out w ++ [MsgSqliteError] /\
   out (snd ext_run) = out w ++ [MsgSqliteError] /\
   forall env_r,
     storage_fault env_r = NoFault ->
     fst (App.get_station_data_for_display env_r (snd app_run)) =
     match table_after_fault (storage_fault env) w with
     | Some _ => inr (SQL_LATEST_QUERY (disk w))
     | None => inl OtherException
     end).
Proof.
  intros app_run ext_run. subst app_run ext_run.
  destruct stations_data as [|s0 stations].
  - rewrite App_load_empty, Extract_load_empty. cbn [fst snd conn released].
    split; [exact I|]. split; [exact I|]. intros H. congruence.
  - rewrite App_load_run, Extract_load_run by discriminate.
    destruct (fault_hits (storage_fault env) (List.length (s0 :: stations))) eqn:H;
      cbn [fst snd conn out table].
    + assert (R : released (conn_after (storage_fault env)))
        by (destruct (storage_fault env); simpl; auto).
      split; [exact R|]. split; [exact R|].
      intros _ _ _. rewrite !disk_after_fault.
      repeat split.
      * intros T. unfold table_after_fault, disk.
        destruct (table w) as [rows|]; [|congruence].
        now destruct (storage_fault env).
      * intros env_r Fr. rewrite App_display_run, Fr. cbn [fst].
        unfold select_fails. cbn [table]. rewrite disk_after_fault.
        now destruct (table_after_fault (storage_fault env) w).
    + split; [now split|]. split; [now split|].
      intros _ _ Habs. discriminate.
Qed.

Lemma append_all_or_nothing_witness :
  let env := mkEnv TransportError sample_clock (InsertFails 1) in
  let reader := mkEnv TransportError sample_clock NoFault in
  let old := sample_row "2026-01-01T00:00:00" (Some 1%Z) (Some 9%Z) in
  let w := mkWorld (Some [old]) None 1 [] in
  let stations_data := [sample_station; sample_station; sample_station] in
  stations_data <> [] /\
  forallb bindable stations_data = true /\
  fault_hits (storage_fault env) (List.length stations_data) = true /\
  fst (App.load_data_to_sqlite env stations_data "2026-01-01T00:05:00" w) =
  inr (Some false) /\
  table (snd (App.load_data_to_sqlite env stations_data "2026-01-01T00:05:00" w)) =
  Some [old] /\
  fst (App.get_station_data_for_display reader
         (snd (App.load_data_to_sqlite env stations_data "2026-01-01T00:05:00" w))) =
  inr [old] /\
  table (snd (App.load_data_to_sqlite env stations_data "2026-01-01T00:05:00"
                                      empty_world)) = Some [].
Proof.
  intros env reader old w stations_data.
  assert (H1 : stations_data <> []) by discriminate.
  assert (H2 : forallb bindable stations_data = true) by reflexivity.
  assert (H3 : fault_hits (storage_fault env) (List.length stations_data) = true)
    by reflexivity.
  split; [exact H1|]. split; [exact H2|]. split; [exact H3|].
  destruct (append_all_or_nothing env stations_data "2026-01-01T00:05:00" w)
    as (_ & _ & H).
  destruct (H H1 H2 H3) as (R & _ & _ & _ & T & _ & _ & _ & _ & D).
  split; [exact R|]. split; [exact T|]. split; [exact (D reader eq_refl)|].
  destruct (append_all_or_nothing env stations_data "2026-01-01T00:05:00" empty_world)
    as (_ & _ & H').
  destruct (H' H1 H2 H3) as (_ & _ & _ & _ & T' & _).
  exact T'.
Defined.

(** C9, as the code has it.  On the empty list the loader opens no
    connection, writes nothing and raises nothing; it returns [None]: in
    app.py that is neither the [True] of a successful write nor the [False]
    of a failure, in extract.py it is what every path returns, after the
    warning that there is nothing to insert. *)
Theorem load_empty_is_noop (env : Env) (t : string) (w : World) :
  App.load_data_to_sqlite env [] t w =
  (inr None, mkWorld (table w) None (ticks w) (out w)) /\
  Extract.load_data_to_sqlite env [] t w =
  (inr tt, mkWorld (table w) None (ticks w) (out w ++ [MsgNoData])).
Proof. split; reflexivity. Qed.

(** C9, as stated, fails: on the empty list app.py's loader does not return
    the success value [True]. *)
Lemma load_empty_does_not_return_True :
  let env := mkEnv (Response 200 (inr sample_doc)) sample_clock NoFault in
  fst (App.load_data_to_sqlite env [] "2026-01-01T00:00:00" empty_world) = inr None /\
  fst (App.load_data_to_sqlite env [] "2026-01-01T00:00:00" empty_world) <>
  inr (Some true).
Proof. split; [reflexivity|discriminate]. Qed.
(* ===================================================================== *)
(** * Properties of the ingestion cycle *)
(* ===================================================================== *)

(** C6. Every row written by one cycle carries the same [snapshot_time]:
    the one reading of the clock the cycle takes, after a successful fetch
    and before the write.  A cycle whose fetch fails reads no clock and
    writes no row. *)
Theorem cycle_stamps_one_timestamp (env : Env) (w : World) :
  let stamp := clock env (ticks w) in
  let app_after := snd (App.run_ingestion_cycle env w) in
  let ext_after := snd (Extract.run_ingestion_cycle env w) in
  (exists written,
      disk app_after = disk w ++ written /\
      Forall (fun r => snapshot_time r = stamp) written /\
      (fetch_decodes (http_reply env) = true \/ written = [])) /\
  (exists written,
      disk ext_after = disk w ++ written /\
      Forall (fun r => snapshot_time r = stamp) written /\
      (fetch_decodes (http_reply env) = true \/ written = [])) /\
  ticks app_after = (if fetch_decodes (http_reply env) then S (ticks w) else ticks w) /\
  ticks ext_after = (if fetch_decodes (http_reply env) then S (ticks w) else ticks w).
Proof.
  intros stamp app_after ext_after. subst app_after ext_after.
  rewrite App_cycle_run, Extract_cycle_run.
  assert (Hnone : forall d, d = d ++ @nil Row) by (intros; now rewrite app_nil_r).
  assert (Hstamp : forall l, Forall (fun r => snapshot_time r = stamp)
                                    (map (make_row stamp) l)).
  { intros l. apply Forall_forall. intros r Hr. apply in_map_iff in Hr.
    now destruct Hr as (s & <- & _). }
  destruct (http_reply env) as [|status_code body]; cbn [fetch_decodes fetch_fails].
  { repeat split; try (exists []; repeat split; auto). }
  destruct body as [e|data];
    destruct ((400 <=? status_code) && (status_code <? 600))%Z; cbn [negb];
    try (repeat split; try (exists []; repeat split; auto); fail).
  { destruct e; repeat split; try (exists []; repeat split; auto). }
  destruct (get_stations data) as [|s0 stations] eqn:G.
  - rewrite App_load_empty, Extract_load_empty. cbn [snd disk ticks ticked].
    repeat split; try (exists []; repeat split; auto).
  - rewrite App_load_run, Extract_load_run by discriminate.
    destruct (fault_hits (storage_fault env) (List.length (s0 :: stations)));
      cbn [snd ticks ticked].
    + rewrite !disk_after_fault.
      repeat split; try (exists []; repeat split; auto; discriminate).
    + rewrite !disk_of_table.
      repeat split;
        try (exists (map (make_row stamp) (s0 :: stations));
             repeat split; auto; discriminate).
Qed.

(** C2, as the code has it.  When the fetch fails by a transport error or
    by a 4xx or 5xx status, the cycle writes nothing (the table and its row
    count are unchanged), raises nothing, shows the API-error message of the
    [RequestException] handler, and app.py returns [False]. *)
Theorem cycle_fetch_failure_writes_nothing (env : Env) (w : World) :
  fetch_fails (http_reply env) = true ->
  App.run_ingestion_cycle env w = (inr (Some false), shown w MsgApiError) /\
  Extract.run_ingestion_cycle env w = (inr tt, shown w MsgApiError) /\
  List.length (disk (snd (App.run_ingestion_cycle env w))) = List.length (disk w) /\
  List.length (disk (snd (Extract.run_ingestion_cycle env w))) = List.length (disk w).
Proof.
  intros H. rewrite App_cycle_run, Extract_cycle_run.
  destruct (http_reply env) as [|status_code body]; cbn [fetch_fails] in H.
  - repeat split.
  - rewrite H. repeat split.
Qed.

Lemma cycle_fetch_failure_writes_nothing_witness :
  let env := mkEnv (Response 503 (inr sample_doc)) sample_clock NoFault in
  let w := mkWorld (Some [sample_row "2026-01-01T00:00:00" (Some 1%Z) (Some 9%Z)])
                   None 1 [] in
  fetch_fails (http_reply env) = true /\
  App.run_ingestion_cycle env w = (inr (Some false), shown w MsgApiError).
Proof.
  intros env w.
  split; [reflexivity|].
  exact (proj1 (cycle_fetch_failure_writes_nothing env w eq_refl)).
Defined.

(** C2, as stated, fails: an answer with status 300 is not a 2xx answer,
    yet [raise_for_status] lets it pass, and the cycle writes the station
    of its body and returns [True]. *)
Lemma cycle_writes_on_status_300 :
  let env := mkEnv (Response 300 (inr sample_doc)) sample_clock NoFault in
  fetch_fails_non_2xx (http_reply env) = true /\
  App.run_ingestion_cycle env empty_world =
  (inr (Some true),
   mkWorld (Some [make_row "2026-01-01T00:00:00" sample_station])
           (Some (mkConn [] true)) 1 []) /\
  List.length (disk (snd (App.run_ingestion_cycle env empty_world))) <>
  List.length (disk empty_world) /\
  List.length (disk (snd (Extract.run_ingestion_cycle env empty_world))) <>
  List.length (disk empty_world).
Proof.
  repeat split; try reflexivity; cbv; discriminate.
Qed.

(* ===================================================================== *)
(** * The ranking as the two analyses deliver it *)
(* ===================================================================== *)



Lemma grouped_keys (rows : list Row) :
  map entry_key (grouped rows) = sort_keys (group_keys rows).
Proof.
  unfold grouped, group_keys. rewrite map_map.
  rewrite <- (map_id (sort_keys (distinct (map key_of rows)))) at 2.
  apply map_ext. now intros [a b].
Qed.

Lemma distinct_NoDup (ks : list group_key) : NoDup (distinct ks).
Proof.
  induction ks as [|k ks IH]; simpl; constructor.
  - intros H. apply filter_In in H. destruct H as [_ H].
    now rewrite key_eqb_refl in H.
  - now apply NoDup_filter.
Qed.

Lemma insert_desc_keys_NoDup (e : Ranking.t) (l : list Ranking.t) :
  NoDup (map entry_key (e :: l)) -> NoDup (map entry_key (insert_desc e l)).
Proof.
  induction l as [|x l IH]; intros H; simpl; [exact H|].
  destruct (Sql.gtb (Ranking.avg_bikes x) (Ranking.avg_bikes e)); [|exact H].
  cbn [map] in *. inversion H as [|? ? He Hxl]; subst.
  inversion Hxl as [|? ? Hx Hl]; subst.
  constructor.
  - intros Hin. apply in_map_iff in Hin. destruct Hin as (y & Ey & Hy).
    apply insert_desc_In in Hy. destruct Hy as [->|Hy].
    + apply He. left. now symmetry.
    + apply Hx. rewrite <- Ey. now apply in_map.
  - apply IH. constructor; [|exact Hl].
    intros Hin. apply He. now right.
Qed.

Lemma order_by_keys_NoDup (l : list Ranking.t) :
  NoDup (map entry_key l) -> NoDup (map entry_key (order_by_avg_bikes_desc l)).
Proof.
  induction l as [|e l IH]; intros H; simpl; [constructor|].
  apply insert_desc_keys_NoDup. cbn [map] in *.
  inversion H as [|? ? He Hl]; subst. constructor; [|now apply IH].
  intros Hin. apply He. apply in_map_iff in Hin. destruct Hin as (y & Ey & Hy).
  apply (proj1 (order_by_In _ _)) in Hy. rewrite <- Ey. now apply in_map.
Qed.

Lemma firstn_NoDup {A : Type} (n : nat) :
  forall l : list A, NoDup l -> NoDup (firstn n l).
Proof.
  induction n as [|n IH]; intros [|a l] H; simpl; try constructor.
  - inversion H; subst. intros Hin. apply firstn_In_of in Hin. contradiction.
  - inversion H; subst. now apply IH.
Qed.

(** The ranking has one entry per group, for as many groups as [LIMIT]
    lets through, and each entry is the aggregate of its group. *)
Lemma ranking_keys_NoDup (rows : list Row) :
  NoDup (map entry_key (SQL_RANKING_QUERY rows)).
Proof.
  unfold SQL_RANKING_QUERY. rewrite <- firstn_map. apply firstn_NoDup.
  apply order_by_keys_NoDup. rewrite grouped_keys.
  apply sort_keys_NoDup, distinct_NoDup.
Qed.










(** What the loop over the result prints: the lines of the entries before
    the first one without a station id, which raises. *)
Lemma print_ranking_rows_run (results : list Ranking.t) :
  forall w,
    Extract.print_ranking_rows results w =
    (if all_have_station_id results then inr tt else inl OtherException,
     mkWorld (table w) (conn w) (ticks w) (out w ++ printed_lines results)).
Proof.
  induction results as [|row results IH]; intros w.
  - cbn. rewrite app_nil_r. now destruct w.
  - cbn [Extract.print_ranking_rows all_have_station_id forallb printed_lines].
    rewrite bind_run. unfold Extract.print_ranking_row.
    destruct (Ranking.station_id row) as [sid|].
    + unfold emit at 1. cbv beta iota. rewrite IH.
      cbn [table conn ticks out andb]. fold (all_have_station_id results).
      fold (ranking_line sid row). rewrite <- app_assoc. reflexivity.
    + cbn. rewrite app_nil_r. now destruct w.
Qed.

(** The analysis of extract.py, case by case. *)
Lemma Extract_analyze_run env w :
  Extract.analyze_and_rank_stations env w =
  (inr tt,
   match storage_fault env with
   | ConnectFails =>
       mkWorld (table w) None (ticks w) (out w ++ [MsgAnalysisSqlError])
   | _ =>
       mkWorld (table w) (Some (mkConn [] true)) (ticks w)
         (out w ++
          MsgRankingHeader ::
          (if select_fails (storage_fault env) w then [MsgAnalysisSqlError]
           else match run_ranking_query (disk w) with
                | inl SqliteError => [MsgAnalysisSqlError]
                | inl _ => [MsgAnalysisUnexpected]
                | inr results =>
                    if is_empty results then [MsgRankingEmpty]
                    else MsgRankingColumns ::
                         printed_lines results ++
                         [if all_have_station_id results
                          then MsgRankingFooter else MsgAnalysisUnexpected]
                end))
   end).
Proof.
  unfold Extract.analyze_and_rank_stations, try_finally, try_except.
  rewrite bind_run. unfold assign_conn at 1. cbv beta iota.
  change (mkWorld (table w) None (ticks w) (out w)) with (with_conn w None).
  rewrite bind_run, connect_run.
  destruct (storage_fault env) eqn:Fe; try reflexivity;
    (rewrite bind_run; unfold emit at 1, with_conn; cbv beta iota;
     cbn [table conn ticks out];
     rewrite bind_run, execute_query_run, Fe;
     destruct (select_fails _ w);
     [ unfold emit, if_conn, close, assign_conn; cbn;
       rewrite <- app_assoc; reflexivity |];
     destruct (run_ranking_query (disk w)) as [e|results];
     [ destruct e; unfold emit, if_conn, close, assign_conn; cbn;
       rewrite <- app_assoc; reflexivity |];
     destruct (is_empty results);
     [ unfold emit, if_conn, close, assign_conn; cbn;
       rewrite <- app_assoc; reflexivity |];
     rewrite bind_run; unfold emit at 1; cbv beta iota;
     cbn [table conn ticks out]; rewrite bind_run, print_ranking_rows_run;
     cbn [table conn ticks out];
     destruct (all_have_station_id results);
     unfold emit, if_conn, close, assign_conn; cbn;
     rewrite <- ?app_assoc; cbn [app]; reflexivity).
Qed.

(** The analysis of app.py, case by case.  A failure to connect is an
    [sqlite3.Error]; a failure of the query comes out of pandas and is
    caught by the last handler, as is the error of [round] on a column of
    dtype object. *)
Lemma App_ranking_run env (object_round_raises : bool) w :
  App.get_ranking_analysis env object_round_raises w =
  match storage_fault env with
  | ConnectFails =>
      (inr [], mkWorld (table w) None (ticks w) (out w ++ [MsgAnalysisExecError]))
  | _ =>
      if select_fails (storage_fault env) w
      then (inr [], mkWorld (table w) (Some (mkConn [] true)) (ticks w)
                            (out w ++ [MsgAnalysisUnexpected]))
      else match run_ranking_query (disk w) with
           | inl _ =>
               (inr [], mkWorld (table w) (Some (mkConn [] true)) (ticks w)
                                (out w ++ [MsgAnalysisUnexpected]))
           | inr df =>
               if is_empty df
               then (inr [], mkWorld (table w) (Some (mkConn [] true)) (ticks w) (out w))
               else if column_is_object df && object_round_raises
               then (inr [], mkWorld (table w) (Some (mkConn [] true)) (ticks w)
                                     (out w ++ [MsgAnalysisUnexpected]))
               else (inr (map (format_row (column_is_object df)) df),
                     mkWorld (table w) (Some (mkConn [] true)) (ticks w) (out w))
           end
  end.
Proof.
  unfold App.get_ranking_analysis, try_finally, try_except.
  rewrite bind_run. unfold assign_conn at 1. cbv beta iota.
  change (mkWorld (table w) None (ticks w) (out w)) with (with_conn w None).
  rewrite bind_run, connect_run.
  destruct (storage_fault env) eqn:Fe; try reflexivity;
    (unfold with_conn; rewrite bind_run, read_sql_query_run, Fe;
     destruct (select_fails _ w); [reflexivity|];
     destruct (run_ranking_query (disk w)) as [e|df]; [reflexivity|];
     destruct (is_empty df); [reflexivity|];
     unfold App.format_utilization;
     destruct (column_is_object df && object_round_raises); reflexivity).
Qed.








(* ===================================================================== *)
(** * Properties of the ranking *)
(* ===================================================================== *)

(** C3. Whatever the table holds, the ranking has at most 10 entries and
    its [avg_bikes] column never increases from one entry to any later one
    (in SQLite's order, where NULL is below every number). *)
Theorem ranking_bounded_and_sorted (rows : list Row) :
  (List.length (SQL_RANKING_QUERY rows) <= 10)%nat /\
  StronglySorted avg_bikes_ge (SQL_RANKING_QUERY rows).
Proof.
  split.
  - rewrite ranking_length. apply Nat.le_min_l.
  - unfold SQL_RANKING_QUERY. apply firstn_sorted. apply order_by_sorted.
Qed.

(** C4. For a table holding exactly the two snapshots of station S1 with
    (bikes 5, docks 5) and (bikes 7, docks 3), the ranking has one entry,
    with [snapshots_count] 2, [total_bikes] 12, [avg_bikes] 6 and
    [avg_utilization_percent] 60, the mean of 50 and 70 percent. *)
Theorem ranking_of_two_snapshots
  (t1 t2 : string) (nm : option string) (lat1 lon1 lat2 lon2 : option Q) :
  let r1 := mkRow t1 (Some "S1"%string) nm (Some 5%Z) (Some 5%Z) lat1 lon1 in
  let r2 := mkRow t2 (Some "S1"%string) nm (Some 7%Z) (Some 3%Z) lat2 lon2 in
  SQL_RANKING_QUERY [r1; r2] =
  [Ranking.mk (Some "S1"%string) nm 2 (Some 12%Z) (Some (6 # 1)) (Some (60 # 1))] /\
  (exists u1 u2,
      utilization_ratio r1 = Some u1 /\ u1 * (100 # 1) == 50 # 1 /\
      utilization_ratio r2 = Some u2 /\ u2 * (100 # 1) == 70 # 1).
Proof.
  intros r1 r2. split.
  - assert (K : key_eqb (key_of r1) (key_of r2) = true) by apply key_eqb_refl.
    assert (K1 : key_eqb (key_of r1) (key_of r1) = true) by apply key_eqb_refl.
    unfold SQL_RANKING_QUERY, grouped, group_rows.
    cbn [map distinct filter]. rewrite K. cbn [negb filter].
    cbn [sort_keys fold_right insert_key map filter]. rewrite K, K1.
    reflexivity.
  - exists (inject_Z 5 / inject_Z (5 + 5)), (inject_Z 7 / inject_Z (7 + 3)).
    repeat split; reflexivity.
Qed.



(** C10. The aggregates of a group skip NULL.  A row counts in
    [snapshots_count] whatever it holds; when its [num_bikes_available] is
    NULL it changes neither [total_bikes] nor [avg_bikes]; when its capacity
    is 0 its ratio is NULL and it does not change
    [avg_utilization_percent]; a group made of zero-capacity rows only has a
    NULL [avg_utilization_percent], not 0.  Every entry of the ranking is
    such an aggregate of one group of the table. *)
Theorem aggregates_skip_null
  (k : group_key) (before after : list Row) (r : Row) :
  let with_r := aggregate k (before ++ r :: after) in
  let without_r := aggregate k (before ++ after) in
  Ranking.snapshots_count with_r = (Ranking.snapshots_count without_r + 1)%Z /\
  (num_bikes_available r = None ->
   Ranking.total_bikes with_r = Ranking.total_bikes without_r /\
   Ranking.avg_bikes with_r = Ranking.avg_bikes without_r) /\
  (zero_capacity r ->
   utilization_ratio r = None /\
   Ranking.avg_utilization_percent with_r =
   Ranking.avg_utilization_percent without_r) /\
  ((forall r', In r' (before ++ r :: after) -> zero_capacity r') ->
   Ranking.avg_utilization_percent with_r = None /\
   Ranking.avg_utilization_percent with_r <> Some 0) /\
  (forall rows e, In e (SQL_RANKING_QUERY rows) ->
     exists r0, In r0 rows /\
                e = aggregate (key_of r0) (group_rows (key_of r0) rows)).
Proof.
  intros with_r without_r. subst with_r without_r.
  unfold aggregate. cbn [Ranking.snapshots_count Ranking.total_bikes
                         Ranking.avg_bikes Ranking.avg_utilization_percent].
  split; [|split; [|split; [|split]]].
  - unfold Sql.count_star. rewrite !length_app. cbn [List.length]. lia.
  - intros Hb. rewrite !map_app. cbn [map]. rewrite Hb. cbn [Sql.cast_real option_map].
    now rewrite sum_skips_null, avg_skips_null.
  - intros Hz. apply utilization_ratio_zero_capacity in Hz. split; [exact Hz|].
    rewrite !map_app. cbn [map]. rewrite Hz. now rewrite avg_skips_null.
  - intros Hall.
    assert (E : Sql.avg (map utilization_ratio (before ++ r :: after)) = None).
    { unfold Sql.avg. rewrite non_null_all_null; [reflexivity|].
      intros x Hx. apply in_map_iff in Hx. destruct Hx as (r' & <- & Hr').
      apply utilization_ratio_zero_capacity. now apply Hall. }
    rewrite E. split; [reflexivity|discriminate].
  - apply ranking_entries_are_aggregates.
Qed.

Lemma aggregates_skip_null_witness :
  let k := (Some "S1"%string, Some "Meriadeck"%string) in
  let r := sample_row "2026-01-01T00:05:00" None (Some 0%Z) in
  let z := sample_row "2026-01-01T00:10:00" (Some 0%Z) (Some 0%Z) in
  let a := sample_row "2026-01-01T00:00:00" (Some 4%Z) (Some 6%Z) in
  num_bikes_available r = None /\
  zero_capacity z /\
  (forall r', In r' ([] ++ z :: [z]) -> zero_capacity r') /\
  Ranking.avg_bikes (aggregate k ([a] ++ r :: [a])) =
  Ranking.avg_bikes (aggregate k ([a] ++ [a])) /\
  Ranking.avg_utilization_percent (aggregate k ([a] ++ z :: [a])) =
  Ranking.avg_utilization_percent (aggregate k ([a] ++ [a])) /\
  Ranking.avg_utilization_percent (aggregate k ([] ++ z :: [z])) = None.
Proof.
  intros k r z a.
  assert (H1 : num_bikes_available r = None) by reflexivity.
  assert (H2 : zero_capacity z) by reflexivity.
  assert (H3 : forall r', In r' ([] ++ z :: [z]) -> zero_capacity r').
  { intros r' [<-|[<-|[]]]; reflexivity. }
  split; [exact H1|]. split; [exact H2|]. split; [exact H3|].
  split; [|split].
  - exact (proj2 (proj1 (proj2 (aggregates_skip_null k [a] [a] r)) H1)).
  - exact (proj2 (proj1 (proj2 (proj2 (aggregates_skip_null k [a] [a] z))) H2)).
  - exact (proj1 (proj1 (proj2 (proj2 (proj2 (aggregates_skip_null k [] [z] z)))) H3)).
Defined.

(* ===================================================================== *)
(** * Further properties of the ingestion cycle *)
(* ===================================================================== *)

Lemma fetched_stations_reply (h : http) (l : list Station.t) :
  fetched_stations h = Some l ->
  exists status_code data,
    h = Response status_code (inr data) /\
    ((400 <=? status_code) && (status_code <? 600))%Z = false /\
    get_stations data = l.
Proof.
  destruct h as [|status_code [e|data]]; cbn [fetched_stations fetch_fails];
    try discriminate.
  destruct ((400 <=? status_code) && (status_code <? 600))%Z eqn:E;
    [discriminate|].
  intros [= <-]. now exists status_code, data.
Qed.

Lemma App_cycle_fetched env w l :
  fetched_stations (http_reply env) = Some l ->
  App.run_ingestion_cycle env w =
  App.load_data_to_sqlite env l (clock env (ticks w)) (ticked w).
Proof.
  intros H. destruct (fetched_stations_reply _ _ H) as (s & d & E & S & <-).
  rewrite App_cycle_run, E, S. reflexivity.
Qed.

Lemma Extract_cycle_fetched env w l :
  fetched_stations (http_reply env) = Some l ->
  Extract.run_ingestion_cycle env w =
  Extract.load_data_to_sqlite env l (clock env (ticks w)) (ticked w).
Proof.
  intros H. destruct (fetched_stations_reply _ _ H) as (s & d & E & S & <-).
  rewrite Extract_cycle_run, E, S. reflexivity.
Qed.

Lemma App_cycle_not_fetched env w :
  fetched_stations (http_reply env) = None ->
  exists m, App.run_ingestion_cycle env w = (inr (Some false), shown w m).
Proof.
  intros H. rewrite App_cycle_run.
  destruct (http_reply env) as [|status_code [e|data]];
    cbn [fetched_stations fetch_fails] in H.
  - eauto.
  - destruct ((400 <=? status_code) && (status_code <? 600))%Z; [eauto|].
    destruct e; eauto.
  - destruct ((400 <=? status_code) && (status_code <? 600))%Z; [eauto|discriminate].
Qed.

Lemma Extract_cycle_not_fetched env w :
  fetched_stations (http_reply env) = None ->
  exists m, Extract.run_ingestion_cycle env w = (inr tt, shown w m).
Proof.
  intros H. rewrite Extract_cycle_run.
  destruct (http_reply env) as [|status_code [e|data]];
    cbn [fetched_stations fetch_fails] in H.
  - eauto.
  - destruct ((400 <=? status_code) && (status_code <? 600))%Z; [eauto|].
    destruct e; eauto.
  - destruct ((400 <=? status_code) && (status_code <? 600))%Z; [eauto|discriminate].
Qed.

(** X1. A cycle whose fetch succeeds on a non-empty station list, with no
    storage fault, appends one row per station, in the order of the answer,
    all stamped with the one clock reading; app.py returns [True] and
    extract.py reports the number of rows inserted. *)
Theorem cycle_success_appends_batch (env : Env) (w : World) (l : list Station.t) :
  fetched_stations (http_reply env) = Some l ->
  l <> [] ->
  fault_hits (storage_fault env) (List.length l) = false ->
  let batch := map (make_row (clock env (ticks w))) l in
  App.run_ingestion_cycle env w =
  (inr (Some true),
   mkWorld (Some (disk w ++ batch)) (Some (mkConn [] true)) (S (ticks w)) (out w)) /\
  Extract.run_ingestion_cycle env w =
  (inr tt,
   mkWorld (Some (disk w ++ batch)) (Some (mkConn [] true)) (S (ticks w))
           (out w ++ [MsgLoaded (List.length l)])).
Proof.
  intros H Hne F batch.
  rewrite (App_cycle_fetched env w l H), (Extract_cycle_fetched env w l H).
  rewrite App_load_run, Extract_load_run by assumption.
  rewrite F. split; reflexivity.
Qed.

Lemma cycle_success_appends_batch_witness :
  let env := mkEnv (Response 200 (inr sample_doc)) sample_clock NoFault in
  fetched_stations (http_reply env) = Some [sample_station] /\
  [sample_station] <> [] /\
  fault_hits (storage_fault env) 1 = false /\
  App.run_ingestion_cycle env empty_world =
  (inr (Some true),
   mkWorld (Some [make_row "2026-01-01T00:00:00" sample_station])
           (Some (mkConn [] true)) 1 []).
Proof.
  intros env.
  assert (H1 : fetched_stations (http_reply env) = Some [sample_station])
    by reflexivity.
  assert (H2 : [sample_station] <> []) by discriminate.
  split; [exact H1|]. split; [exact H2|]. split; [reflexivity|].
  exact (proj1 (cycle_success_appends_batch env empty_world [sample_station]
                                            H1 H2 eq_refl)).
Defined.

(** X2. A cycle whose fetch succeeds but whose write meets a storage fault
    is a failed cycle of the storage kind: the SQLite error message is shown,
    not the API one, app.py returns [False], the clock was read once and the
    rows of the table are as before (a table that was missing is there,
    empty, if the fault came after [CREATE TABLE]). *)
Theorem cycle_storage_failure (env : Env) (w : World) (l : list Station.t) :
  fetched_stations (http_reply env) = Some l ->
  l <> [] ->
  fault_hits (storage_fault env) (List.length l) = true ->
  App.run_ingestion_cycle env w =
  (inr (Some false),
   mkWorld (table_after_fault (storage_fault env) w)
           (conn_after (storage_fault env)) (S (ticks w))
           (out w ++ [MsgSqliteError])) /\
  Extract.run_ingestion_cycle env w =
  (inr tt,
   mkWorld (table_after_fault (storage_fault env) w)
           (conn_after (storage_fault env)) (S (ticks w))
           (out w ++ [MsgSqliteError])) /\
  disk (snd (App.run_ingestion_cycle env w)) = disk w /\
  disk (snd (Extract.run_ingestion_cycle env w)) = disk w /\
  (table w <> None -> table_after_fault (storage_fault env) w = table w).
Proof.
  intros H Hne F.
  rewrite (App_cycle_fetched env w l H), (Extract_cycle_fetched env w l H).
  rewrite App_load_run, Extract_load_run by assumption.
  rewrite F. cbn [snd]. rewrite !disk_after_fault.
  repeat split.
  intros T. unfold table_after_fault, disk.
  destruct (table w); [|congruence]. now destruct (storage_fault env).
Qed.

Lemma cycle_storage_failure_witness :
  let env := mkEnv (Response 200 (inr sample_doc)) sample_clock CommitFails in
  fetched_stations (http_reply env) = Some [sample_station] /\
  [sample_station] <> [] /\
  fault_hits (storage_fault env) 1 = true /\
  App.run_ingestion_cycle env empty_world =
  (inr (Some false), mkWorld (Some []) (Some (mkConn [] true)) 1 [MsgSqliteError]).
Proof.
  intros env.
  assert (H1 : fetched_stations (http_reply env) = Some [sample_station])
    by reflexivity.
  assert (H2 : [sample_station] <> []) by discriminate.
  split; [exact H1|]. split; [exact H2|]. split; [reflexivity|].
  exact (proj1 (cycle_storage_failure env empty_world [sample_station]
                                      H1 H2 eq_refl)).
Defined.

(** X3. When the answer has an acceptable status but [response.json()]
    raises, the cycle writes nothing, reads no clock and returns normally;
    the message is the API one if the exception is a [RequestException] and
    the unexpected-error one otherwise, and app.py returns [False]. *)
Theorem cycle_undecodable_body
  (env : Env) (w : World) (status_code : Z) (e : exn) :
  http_reply env = Response status_code (inl e) ->
  ((400 <=? status_code) && (status_code <? 600))%Z = false ->
  let m := match e with RequestException => MsgApiError | _ => MsgUnexpected end in
  App.run_ingestion_cycle env w = (inr (Some false), shown w m) /\
  Extract.run_ingestion_cycle env w = (inr tt, shown w m).
Proof.
  intros E S m. rewrite App_cycle_run, Extract_cycle_run, E, S.
  subst m. destruct e; split; reflexivity.
Qed.

Lemma cycle_undecodable_body_witness :
  let env := mkEnv (Response 200 (inl OtherException)) sample_clock NoFault in
  http_reply env = Response 200 (inl OtherException) /\
  ((400 <=? 200) && (200 <? 600))%Z = false /\
  App.run_ingestion_cycle env empty_world =
  (inr (Some false), shown empty_world MsgUnexpected).
Proof.
  intros env. split; [reflexivity|]. split; [reflexivity|].
  exact (proj1 (cycle_undecodable_body env empty_world 200 OtherException
                                       eq_refl eq_refl)).
Defined.

(** X4. When the decoded answer has no [network] key, no [stations] key or
    an empty station list, the cycle never touches the storage: whatever
    storage fault is injected, no connection is opened and the table is as
    before; the clock was read once; app.py returns [None] and extract.py
    shows the nothing-to-insert warning. *)
Theorem cycle_empty_answer (env : Env) (w : World) :
  fetched_stations (http_reply env) = Some [] ->
  App.run_ingestion_cycle env w =
  (inr None, mkWorld (table w) None (S (ticks w)) (out w)) /\
  Extract.run_ingestion_cycle env w =
  (inr tt, mkWorld (table w) None (S (ticks w)) (out w ++ [MsgNoData])).
Proof.
  intros H.
  rewrite (App_cycle_fetched env w [] H), (Extract_cycle_fetched env w [] H).
  split; reflexivity.
Qed.

Lemma cycle_empty_answer_witness :
  let env := mkEnv (Response 200 (inr (mkDoc None))) sample_clock ConnectFails in
  fetched_stations (http_reply env) = Some [] /\
  App.run_ingestion_cycle env empty_world = (inr None, mkWorld None None 1 []).
Proof.
  intros env. split; [reflexivity|].
  exact (proj1 (cycle_empty_answer env empty_world eq_refl)).
Defined.

(** X5. app.py's cycle never raises, and it returns [True] exactly when it
    stored rows: a [True] means the whole non-empty batch of the answer was
    appended, any other result means the table is as before. *)
Theorem cycle_True_iff_written (env : Env) (w : World) :
  let run := App.run_ingestion_cycle env w in
  (exists v, fst run = inr v) /\
  (fst run = inr (Some true) ->
   exists l, fetched_stations (http_reply env) = Some l /\ l <> [] /\
             disk (snd run) =
             disk w ++ map (make_row (clock env (ticks w))) l) /\
  (fst run <> inr (Some true) -> disk (snd run) = disk w).
Proof.
  intros run. subst run.
  destruct (fetched_stations (http_reply env)) as [l|] eqn:H.
  - rewrite (App_cycle_fetched env w l H).
    destruct l as [|s0 l].
    + rewrite App_load_empty. cbn [fst snd disk].
      split; [eauto|]. split; [discriminate|reflexivity].
    + rewrite App_load_run by discriminate.
      destruct (fault_hits (storage_fault env) (List.length (s0 :: l)));
        cbn [fst snd].
      * split; [eauto|]. split; [discriminate|]. intros _.
        exact (disk_after_fault _ (ticked w) _ _ _).
      * split; [eauto|]. split; [|congruence].
        intros _. exists (s0 :: l). repeat split. discriminate.
  - destruct (App_cycle_not_fetched env w H) as (m & E). rewrite E.
    cbn [fst snd disk shown].
    split; [eauto|]. split; [discriminate|reflexivity].
Qed.

Lemma cycle_True_iff_written_witness :
  let env := mkEnv (Response 200 (inr sample_doc)) sample_clock NoFault in
  let run := App.run_ingestion_cycle env empty_world in
  fst run = inr (Some true) /\
  exists l, fetched_stations (http_reply env) = Some l /\ l <> [] /\
            disk (snd run) = [] ++ map (make_row "2026-01-01T00:00:00") l.
Proof.
  intros env run.
  assert (H : fst run = inr (Some true)) by reflexivity.
  split; [exact H|].
  exact (proj1 (proj2 (cycle_True_iff_written env empty_world)) H).
Defined.

(** X6. The cycles of extract.py and of app.py store the same rows and read
    the clock as often, whatever the network answers and whatever storage
    fault is injected; they differ only in messages and return value. *)
Theorem cycles_agree_on_storage (env : Env) (w : World) :
  table (snd (Extract.run_ingestion_cycle env w)) =
  table (snd (App.run_ingestion_cycle env w)) /\
  disk (snd (Extract.run_ingestion_cycle env w)) =
  disk (snd (App.run_ingestion_cycle env w)) /\
  ticks (snd (Extract.run_ingestion_cycle env w)) =
  ticks (snd (App.run_ingestion_cycle env w)) /\
  conn (snd (Extract.run_ingestion_cycle env w)) =
  conn (snd (App.run_ingestion_cycle env w)).
Proof.
  destruct (fetched_stations (http_reply env)) as [l|] eqn:H.
  - rewrite (App_cycle_fetched env w l H), (Extract_cycle_fetched env w l H).
    destruct l as [|s0 l].
    + rewrite App_load_empty, Extract_load_empty. repeat split.
    + rewrite App_load_run, Extract_load_run by discriminate.
      destruct (fault_hits (storage_fault env) (List.length (s0 :: l)));
        repeat split.
  - destruct (App_cycle_not_fetched env w H) as (m & E).
    destruct (Extract_cycle_not_fetched env w H) as (m' & E').
    rewrite E, E'. repeat split.
Qed.

(* ===================================================================== *)
(** * Further properties of the latest-snapshot read *)
(* ===================================================================== *)

Lemma is_latest_app (old batch : list Row) (r : Row) :
  is_latest (old ++ batch) r = is_latest old r && is_latest batch r.
Proof. unfold is_latest. apply forallb_app. Qed.

Lemma is_latest_max (rows : list Row) (m : string) (r : Row) :
  max_snapshot_time rows = Some m ->
  is_latest rows r = String.leb m (snapshot_time r).
Proof.
  intros Hm. destruct (max_snapshot_time_spec _ _ Hm) as ((r1 & Hr1 & E1) & Hall).
  destruct (String.leb m (snapshot_time r)) eqn:L.
  - unfold is_latest. apply forallb_forall. intros r' Hr'.
    eapply text_leb_trans; [now apply Hall|exact L].
  - destruct (is_latest rows r) eqn:I; [|reflexivity].
    unfold is_latest in I. rewrite forallb_forall in I.
    specialize (I r1 Hr1). rewrite E1 in I. congruence.
Qed.

Lemma is_latest_same_stamp (batch : list Row) (t : string) (r : Row) :
  (forall r', In r' batch -> snapshot_time r' = t) ->
  batch <> [] ->
  is_latest batch r = String.leb t (snapshot_time r).
Proof.
  intros Hst Hne. unfold is_latest.
  destruct (String.leb t (snapshot_time r)) eqn:L.
  - apply forallb_forall. intros r' Hr'. now rewrite (Hst r' Hr').
  - destruct batch as [|b0 batch]; [congruence|].
    cbn [forallb]. rewrite (Hst b0 (or_introl eq_refl)), L. reflexivity.
Qed.

Lemma leb_of_ltb_false (a b : string) :
  String.ltb a b = true -> String.leb b a = false.
Proof.
  unfold String.ltb, String.leb. rewrite (String.compare_antisym a b).
  now destruct (String.compare b a).
Qed.

(** A batch stamped below the stored maximum is stored but not latest. *)
Lemma SQL_LATEST_QUERY_stale_append (old batch : list Row) (t m : string) :
  max_snapshot_time old = Some m ->
  String.ltb t m = true ->
  (forall r, In r batch -> snapshot_time r = t) ->
  SQL_LATEST_QUERY (old ++ batch) = SQL_LATEST_QUERY old.
Proof.
  intros Hm Hlt Hst. rewrite !SQL_LATEST_QUERY_is_filter, filter_app.
  destruct batch as [|b0 batch]; [now rewrite !app_nil_r|].
  assert (Hne : b0 :: batch <> []) by discriminate.
  rewrite (filter_none (is_latest (old ++ b0 :: batch)) (b0 :: batch)).
  - rewrite app_nil_r. apply filter_ext_in. intros r Hr.
    rewrite is_latest_app, (is_latest_same_stamp _ t r Hst Hne).
    rewrite (is_latest_max old m r Hm).
    destruct (String.leb m (snapshot_time r)) eqn:L; [|reflexivity].
    cbn [andb]. eapply text_leb_trans; [apply text_ltb_leb; exact Hlt|exact L].
  - intros r Hr. rewrite is_latest_app, (is_latest_max old m r Hm), (Hst r Hr).
    now rewrite (leb_of_ltb_false _ _ Hlt).
Qed.

(** A batch stamped with the stored maximum joins the latest rows. *)
Lemma SQL_LATEST_QUERY_equal_append (old batch : list Row) (t : string) :
  max_snapshot_time old = Some t ->
  (forall r, In r batch -> snapshot_time r = t) ->
  SQL_LATEST_QUERY (old ++ batch) = SQL_LATEST_QUERY old ++ batch.
Proof.
  intros Hm Hst. rewrite !SQL_LATEST_QUERY_is_filter, filter_app.
  destruct batch as [|b0 batch]; [now rewrite !app_nil_r|].
  assert (Hne : b0 :: batch <> []) by discriminate.
  f_equal.
  - apply filter_ext_in. intros r Hr.
    rewrite is_latest_app, (is_latest_same_stamp _ t r Hst Hne).
    rewrite (is_latest_max old t r Hm). now destruct (String.leb t (snapshot_time r)).
  - apply forallb_filter_id. apply forallb_forall. intros r Hr.
    rewrite is_latest_app, (is_latest_same_stamp _ t r Hst Hne).
    rewrite (is_latest_max old t r Hm), (Hst r Hr), text_leb_refl. reflexivity.
Qed.

Lemma max_snapshot_time_after_append (old batch : list Row) (t : string) :
  batch <> [] ->
  (forall r, In r old -> String.ltb (snapshot_time r) t = true) ->
  (forall r, In r batch -> snapshot_time r = t) ->
  max_snapshot_time (old ++ batch) = Some t.
Proof.
  intros Hne Hold Hst.
  destruct (max_snapshot_time (old ++ batch)) as [m|] eqn:Hm.
  - destruct (max_snapshot_time_spec _ _ Hm) as ((r & Hr & E) & Hall).
    apply in_app_or in Hr. destruct Hr as [Hr|Hr].
    + exfalso. destruct batch as [|b0 batch']; [congruence|].
      assert (L : String.leb (snapshot_time b0) m = true)
        by (apply Hall; apply in_or_app; right; now left).
      rewrite (Hst b0 (or_introl eq_refl)), <- E in L.
      rewrite (leb_of_ltb_false _ _ (Hold r Hr)) in L. discriminate.
    + now rewrite <- E, (Hst r Hr).
  - destruct old, batch; try discriminate. congruence.
Qed.

Lemma make_row_stamp (t : string) (l : list Station.t) (r : Row) :
  In r (map (make_row t) l) -> snapshot_time r = t.
Proof. intros H. apply in_map_iff in H. now destruct H as (s & <- & _). Qed.

(** X7. The latest-snapshot read of app.py is a pure read: it never
    changes the file nor reads the clock, and it leaves no connection open,
    whatever storage fault is injected.  When the connection cannot be
    opened, the [sqlite3.Error] is caught: the database error is shown and
    the empty frame returned.  When the query fails, by a storage fault or
    because the file has no table yet, the error comes out of pandas and is
    not caught: the read raises it to its caller, after closing the
    connection, and shows nothing.  Otherwise the rows of the latest
    snapshot are returned.  A read does not change what a following read
    does. *)
Theorem display_is_a_pure_read (env env' : Env) (w : World) :
  let run := App.get_station_data_for_display env w in
  table (snd run) = table w /\
  ticks (snd run) = ticks w /\
  released (conn (snd run)) /\
  fst run = match storage_fault env with
            | ConnectFails => inr []
            | _ => if select_fails (storage_fault env) w
                   then inl OtherException
                   else inr (SQL_LATEST_QUERY (disk w))
            end /\
  out (snd run) = match storage_fault env with
                  | ConnectFails => out w ++ [MsgDisplayError]
                  | _ => out w
                  end /\
  fst (App.get_station_data_for_display env' (snd run)) =
  fst (App.get_station_data_for_display env' w).
Proof.
  intros run. subst run. rewrite !App_display_run.
  destruct (storage_fault env);
    cbn [fst snd table ticks conn out released pending closed];
    repeat split;
    destruct (storage_fault env'); reflexivity.
Qed.

(** X8. On a table that is not empty the latest-snapshot read returns at
    least one row, and all the rows it returns carry the same
    [snapshot_time]. *)
Theorem latest_rows_share_one_stamp (env : Env) (w : World) :
  storage_fault env = NoFault ->
  disk w <> [] ->
  exists df t,
    fst (App.get_station_data_for_display env w) = inr df /\
    df <> [] /\
    max_snapshot_time (disk w) = Some t /\
    Forall (fun r => snapshot_time r = t) df.
Proof.
  intros F Hne. rewrite App_display_run, F. cbn [fst].
  assert (S : select_fails NoFault w = false).
  { unfold select_fails. unfold disk in Hne. destruct (table w); congruence. }
  rewrite S. unfold SQL_LATEST_QUERY.
  destruct (max_snapshot_time (disk w)) as [m|] eqn:Hm.
  - exists (filter (fun r => String.eqb (snapshot_time r) m) (disk w)), m.
    split; [reflexivity|]. split; [|split; [reflexivity|]].
    + destruct (max_snapshot_time_spec _ _ Hm) as ((r1 & Hr1 & E1) & _).
      intros E.
      assert (Hin : In r1 (filter (fun r => String.eqb (snapshot_time r) m) (disk w))).
      { apply filter_In. split; [exact Hr1|]. rewrite E1. apply String.eqb_refl. }
      rewrite E in Hin. contradiction.
    + apply Forall_forall. intros r Hr. apply filter_In in Hr.
      now apply String.eqb_eq.
  - destruct (disk w); [congruence|discriminate].
Qed.

Lemma latest_rows_share_one_stamp_witness :
  let env := mkEnv TransportError sample_clock NoFault in
  let old := sample_row "2026-01-01T00:00:00" (Some 1%Z) (Some 9%Z) in
  let new := sample_row "2026-01-01T00:05:00" (Some 2%Z) (Some 8%Z) in
  let w := mkWorld (Some [new; old; new]) None 0 [] in
  storage_fault env = NoFault /\
  disk w <> [] /\
  exists df t,
    fst (App.get_station_data_for_display env w) = inr df /\
    df <> [] /\
    max_snapshot_time (disk w) = Some t /\
    Forall (fun r => snapshot_time r = t) df.
Proof.
  intros env old new w.
  assert (H2 : disk w <> []) by discriminate.
  split; [reflexivity|]. split; [exact H2|].
  exact (latest_rows_share_one_stamp env w eq_refl H2).
Defined.

(** X9. A batch written with a stamp strictly below the greatest stamp
    already stored (a clock set back) is stored, but the latest-snapshot
    read keeps returning what it returned before the write. *)
Theorem stale_stamp_is_stored_but_not_latest
  (env_w env_r : Env) (stations_data : list Station.t) (t m : string) (w : World) :
  storage_fault env_w = NoFault ->
  stations_data <> [] ->
  max_snapshot_time (disk w) = Some m ->
  String.ltb t m = true ->
  let after := snd (App.load_data_to_sqlite env_w stations_data t w) in
  disk after = disk w ++ map (make_row t) stations_data /\
  fst (App.get_station_data_for_display env_r after) =
  fst (App.get_station_data_for_display env_r w).
Proof.
  intros F Hne Hm Hlt after. subst after.
  rewrite App_load_run by assumption. rewrite F. cbn [fault_hits snd].
  split; [reflexivity|].
  rewrite !App_display_run. rewrite disk_of_table.
  rewrite (SQL_LATEST_QUERY_stale_append (disk w) _ t m Hm Hlt (make_row_stamp t _)).
  assert (T : table w <> None).
  { intros T. unfold disk in Hm. rewrite T in Hm. discriminate. }
  unfold select_fails. cbn [table fst].
  destruct (table w); [|congruence]. now destruct (storage_fault env_r).
Qed.

Lemma stale_stamp_is_stored_but_not_latest_witness :
  let env := mkEnv TransportError sample_clock NoFault in
  let new := sample_row "2026-10-25T02:30:00" (Some 2%Z) (Some 8%Z) in
  let w := mkWorld (Some [new]) None 0 [] in
  let t := "2026-10-25T02:05:00"%string in
  storage_fault env = NoFault /\
  [sample_station] <> [] /\
  max_snapshot_time (disk w) = Some "2026-10-25T02:30:00"%string /\
  String.ltb t "2026-10-25T02:30:00" = true /\
  fst (App.get_station_data_for_display env
         (snd (App.load_data_to_sqlite env [sample_station] t w))) = inr [new].
Proof.
  intros env new w t.
  assert (H2 : [sample_station] <> []) by discriminate.
  split; [reflexivity|]. split; [exact H2|]. split; [reflexivity|].
  split; [reflexivity|].
  exact (proj2 (stale_stamp_is_stored_but_not_latest
                  env env [sample_station] t "2026-10-25T02:30:00" w
                  eq_refl H2 eq_refl eq_refl)).
Defined.

(** X10. Nothing removes duplicates: a batch written twice with the same
    stamp, above every stamp stored before, is stored twice, and the
    latest-snapshot read returns both copies. *)
Theorem same_batch_twice_is_kept_twice
  (env_w env_r : Env) (stations_data : list Station.t) (t : string) (w : World) :
  storage_fault env_w = NoFault ->
  storage_fault env_r = NoFault ->
  stations_data <> [] ->
  (forall r, In r (disk w) -> String.ltb (snapshot_time r) t = true) ->
  let batch := map (make_row t) stations_data in
  let once := snd (App.load_data_to_sqlite env_w stations_data t w) in
  let twice := snd (App.load_data_to_sqlite env_w stations_data t once) in
  disk twice = disk w ++ batch ++ batch /\
  fst (App.get_station_data_for_display env_r twice) = inr (batch ++ batch).
Proof.
  intros Fw Fr Hne Hold batch once twice. subst once twice.
  rewrite !App_load_run by assumption. rewrite Fw. cbn [fault_hits snd].
  rewrite !disk_of_table.
  fold batch. rewrite <- app_assoc. split; [reflexivity|].
  rewrite App_display_run, Fr. cbn [fst select_fails table].
  rewrite disk_of_table. f_equal.
  assert (Hb : batch <> []).
  { unfold batch. destruct stations_data; [congruence|discriminate]. }
  assert (H1 : SQL_LATEST_QUERY (disk w ++ batch) = batch)
    by (apply SQL_LATEST_QUERY_after_append with t;
        [exact Hb|exact Hold|apply make_row_stamp]).
  assert (Hm : max_snapshot_time (disk w ++ batch) = Some t)
    by (apply max_snapshot_time_after_append;
        [exact Hb|exact Hold|apply make_row_stamp]).
  rewrite app_assoc.
  rewrite (SQL_LATEST_QUERY_equal_append _ batch t Hm (make_row_stamp t _)).
  now rewrite H1.
Qed.

Lemma same_batch_twice_is_kept_twice_witness :
  let env := mkEnv TransportError sample_clock NoFault in
  let t := "2026-01-01T00:05:00"%string in
  let b := make_row t sample_station in
  storage_fault env = NoFault /\
  [sample_station] <> [] /\
  (forall r, In r (disk empty_world) -> String.ltb (snapshot_time r) t = true) /\
  fst (App.get_station_data_for_display env
         (snd (App.load_data_to_sqlite env [sample_station] t
                 (snd (App.load_data_to_sqlite env [sample_station] t empty_world))))) =
  inr [b; b].
Proof.
  intros env t b.
  assert (H2 : [sample_station] <> []) by discriminate.
  assert (H3 : forall r, In r (disk empty_world) ->
                         String.ltb (snapshot_time r) t = true)
    by (intros r []).
  split; [reflexivity|]. split; [exact H2|]. split; [exact H3|].
  exact (proj2 (same_batch_twice_is_kept_twice env env [sample_station] t
                  empty_world eq_refl eq_refl H2 H3)).
Defined.

(** X11. End to end: after a cycle that fetched a non-empty station list
    and met no storage fault, with a clock reading above every stamp stored
    before, the latest-snapshot read returns exactly the stations of the
    answer, one row each, stamped with that reading. *)
Theorem cycle_then_display
  (env env_r : Env) (w : World) (l : list Station.t) :
  fetched_stations (http_reply env) = Some l ->
  l <> [] ->
  fault_hits (storage_fault env) (List.length l) = false ->
  read_fails (storage_fault env_r) = false ->
  (forall r, In r (disk w) ->
             String.ltb (snapshot_time r) (clock env (ticks w)) = true) ->
  fst (App.get_station_data_for_display env_r
         (snd (App.run_ingestion_cycle env w))) =
  inr (map (make_row (clock env (ticks w))) l) /\
  fst (App.get_station_data_for_display env_r
         (snd (Extract.run_ingestion_cycle env w))) =
  inr (map (make_row (clock env (ticks w))) l).
Proof.
  intros H Hne F Fr Hold.
  rewrite (App_cycle_fetched env w l H), (Extract_cycle_fetched env w l H).
  rewrite App_load_run, Extract_load_run by assumption. rewrite F.
  rewrite !App_display_run. cbn [snd ticks ticked] in *.
  rewrite !disk_of_table.
  change (disk (ticked w)) with (disk w).
  assert (Hb : map (make_row (clock env (ticks w))) l <> [])
    by (destruct l; [congruence|discriminate]).
  rewrite (SQL_LATEST_QUERY_after_append (disk w) _ (clock env (ticks w))
             Hb Hold (make_row_stamp _ _)).
  destruct (storage_fault env_r); try discriminate; split; reflexivity.
Qed.

Lemma cycle_then_display_witness :
  let env := mkEnv (Response 200 (inr sample_doc)) sample_clock NoFault in
  fetched_stations (http_reply env) = Some [sample_station] /\
  [sample_station] <> [] /\
  fault_hits (storage_fault env) 1 = false /\
  read_fails (storage_fault env) = false /\
  (forall r, In r (disk empty_world) ->
             String.ltb (snapshot_time r) (clock env (ticks empty_world)) = true) /\
  fst (App.get_station_data_for_display env
         (snd (App.run_ingestion_cycle env empty_world))) =
  inr [make_row "2026-01-01T00:00:00" sample_station].
Proof.
  intros env.
  assert (H1 : fetched_stations (http_reply env) = Some [sample_station])
    by reflexivity.
  assert (H2 : [sample_station] <> []) by discriminate.
  assert (H5 : forall r, In r (disk empty_world) ->
             String.ltb (snapshot_time r) (clock env (ticks empty_world)) = true)
    by (intros r []).
  split; [exact H1|]. split; [exact H2|]. split; [reflexivity|].
  split; [reflexivity|]. split; [exact H5|].
  exact (proj1 (cycle_then_display env env empty_world [sample_station]
                                   H1 H2 eq_refl eq_refl H5)).
Defined.

(* ===================================================================== *)
(** * Further properties of the ranking *)
(* ===================================================================== *)

(** X12. The ranking is empty exactly when the table is empty. *)
Theorem ranking_empty_iff_table_empty (rows : list Row) :
  SQL_RANKING_QUERY rows = [] <-> rows = [].
Proof.
  split.
  - intros E. destruct rows as [|r rows]; [reflexivity|exfalso].
    apply (f_equal (@List.length _)) in E. rewrite ranking_length in E.
    assert (H := grouped_covers (r :: rows) r (or_introl eq_refl)).
    destruct (grouped (r :: rows)); [contradiction|discriminate].
  - intros ->. reflexivity.
Qed.

(** X13. The ranking has at most one entry per (station_id, name) pair,
    and every entry stands for a pair that occurs in the table. *)
Theorem ranking_one_entry_per_group (rows : list Row) :
  NoDup (map entry_key (SQL_RANKING_QUERY rows)) /\
  (forall e, In e (SQL_RANKING_QUERY rows) ->
             exists r, In r rows /\ key_of r = entry_key e).
Proof.
  split.
  - apply ranking_keys_NoDup.
  - intros e He. destruct (ranking_entries_are_aggregates rows e He) as (r & Hr & ->).
    exists r. split; [exact Hr|]. now destruct (key_of r).
Qed.

Lemma ranking_one_entry_per_group_witness :
  let e := aggregate (Some "K"%string, None)
                     (group_rows (Some "K"%string, None) sample_table) in
  In e (SQL_RANKING_QUERY sample_table) /\
  exists r, In r sample_table /\ key_of r = entry_key e.
Proof.
  intros e.
  assert (H : In e (SQL_RANKING_QUERY sample_table))
    by (vm_compute; repeat (first [left; reflexivity | right])).
  split; [exact H|].
  exact (proj2 (ranking_one_entry_per_group sample_table) e H).
Defined.

Lemma count_of_group_split (k : group_key) (D : list group_key) (rows : list Row) :
  ~ In k D ->
  List.length (filter (fun r => key_eqb k (key_of r) ||
                               existsb (fun k' => key_eqb k' (key_of r)) D) rows) =
  (List.length (group_rows k rows) +
   List.length (filter (fun r => existsb (fun k' => key_eqb k' (key_of r)) D) rows))%nat.
Proof.
  intros Hk. unfold group_rows.
  induction rows as [|r rows IH]; simpl; [reflexivity|].
  destruct (key_eqb k (key_of r)) eqn:E; simpl.
  - apply key_eqb_eq in E.
    assert (X : existsb (fun k' => key_eqb k' (key_of r)) D = false).
    { destruct (existsb (fun k' => key_eqb k' (key_of r)) D) eqn:X; [|reflexivity].
      apply existsb_exists in X. destruct X as (k' & Hk' & E').
      apply key_eqb_eq in E'. exfalso. apply Hk. congruence. }
    rewrite X. simpl. now rewrite IH.
  - destruct (existsb (fun k' => key_eqb k' (key_of r)) D); simpl; rewrite IH; lia.
Qed.

Lemma counts_partition (D : list group_key) (rows : list Row) :
  NoDup D ->
  Sql.Zsum (map (fun k => Sql.count_star (group_rows k rows)) D) =
  Z.of_nat (List.length
              (filter (fun r => existsb (fun k' => key_eqb k' (key_of r)) D) rows)).
Proof.
  induction D as [|k D IH]; intros H.
  - simpl. induction rows; simpl; auto.
  - inversion H as [|? ? Hk HD]; subst. cbn [map Sql.Zsum fold_right].
    fold (Sql.Zsum (map (fun k0 => Sql.count_star (group_rows k0 rows)) D)).
    rewrite (IH HD). cbn [existsb].
    rewrite (count_of_group_split k D rows Hk).
    unfold Sql.count_star. lia.
Qed.

Lemma grouped_total_snapshots (rows : list Row) :
  total_snapshots (grouped rows) = Z.of_nat (List.length rows).
Proof.
  unfold total_snapshots, grouped. rewrite map_map. cbn [aggregate Ranking.snapshots_count].
  rewrite counts_partition by apply sort_keys_NoDup, distinct_NoDup.
  rewrite forallb_filter_id; [reflexivity|].
  apply forallb_forall. intros r Hr. apply existsb_exists.
  exists (key_of r). split; [|apply key_eqb_refl].
  apply sort_keys_In, distinct_In. now apply in_map.
Qed.

Lemma insert_desc_total (e : Ranking.t) (l : list Ranking.t) :
  total_snapshots (insert_desc e l) =
  (Ranking.snapshots_count e + total_snapshots l)%Z.
Proof.
  unfold total_snapshots.
  induction l as [|x l IH]; simpl; [reflexivity|].
  destruct (Sql.gtb (Ranking.avg_bikes x) (Ranking.avg_bikes e)); simpl; [|reflexivity].
  rewrite IH. lia.
Qed.

Lemma order_by_total (l : list Ranking.t) :
  total_snapshots (order_by_avg_bikes_desc l) = total_snapshots l.
Proof.
  induction l as [|e l IH]; simpl; [reflexivity|].
  rewrite insert_desc_total, IH. reflexivity.
Qed.

Lemma firstn_total_le (n : nat) :
  forall l, (forall e, In e l -> (0 <= Ranking.snapshots_count e)%Z) ->
            (total_snapshots (firstn n l) <= total_snapshots l)%Z.
Proof.
  unfold total_snapshots.
  induction n as [|n IH]; intros l H; simpl.
  - induction l as [|e l IHl]; simpl; [lia|].
    assert (0 <= Ranking.snapshots_count e)%Z by (apply H; now left).
    assert (0 <= Sql.Zsum (map Ranking.snapshots_count l))%Z
      by (apply IHl; intros; apply H; now right).
    unfold Sql.Zsum in *. lia.
  - destruct l as [|e l]; simpl; [lia|].
    assert (Sql.Zsum (map Ranking.snapshots_count (firstn n l)) <=
            Sql.Zsum (map Ranking.snapshots_count l))%Z
      by (apply IH; intros; apply H; now right).
    unfold Sql.Zsum in *. lia.
Qed.

(** X14. The groups partition the table: over all the groups the
    [snapshots_count] values add up to the number of rows.  The ranking
    therefore never counts more snapshots than the table has rows, and counts
    them all when there are at most 10 groups. *)
Theorem snapshot_counts_partition_the_table (rows : list Row) :
  total_snapshots (grouped rows) = Z.of_nat (List.length rows) /\
  (total_snapshots (SQL_RANKING_QUERY rows) <= Z.of_nat (List.length rows))%Z /\
  ((List.length (grouped rows) <= 10)%nat ->
   total_snapshots (SQL_RANKING_QUERY rows) = Z.of_nat (List.length rows)).
Proof.
  split; [apply grouped_total_snapshots|]. split.
  - rewrite <- grouped_total_snapshots, <- (order_by_total (grouped rows)).
    unfold SQL_RANKING_QUERY. apply firstn_total_le.
    intros e He. apply (proj1 (order_by_In _ _)) in He.
    unfold grouped in He. apply in_map_iff in He. destruct He as (k & <- & _).
    cbn [aggregate Ranking.snapshots_count]. unfold Sql.count_star. lia.
  - intros L. unfold SQL_RANKING_QUERY.
    rewrite firstn_all2 by (rewrite order_by_length; exact L).
    rewrite order_by_total. apply grouped_total_snapshots.
Qed.

Lemma snapshot_counts_partition_the_table_witness :
  let rows := [sample_row "2026-01-01T00:00:00" (Some 4%Z) (Some 6%Z);
               mkRow "2026-01-01T00:00:00" (Some "S2"%string) None None None None None;
               sample_row "2026-01-01T00:05:00" (Some 5%Z) (Some 5%Z)] in
  (List.length (grouped rows) <= 10)%nat /\
  total_snapshots (SQL_RANKING_QUERY rows) = 3%Z.
Proof.
  intros rows.
  assert (H : (List.length (grouped rows) <= 10)%nat) by (cbv; lia).
  split; [exact H|].
  exact (proj2 (proj2 (snapshot_counts_partition_the_table rows)) H).
Defined.

Lemma sorted_app_cross {A : Type} (R : A -> A -> Prop) (l1 l2 : list A) :
  StronglySorted R (l1 ++ l2) ->
  forall x y, In x l1 -> In y l2 -> R x y.
Proof.
  induction l1 as [|a l1 IH]; intros H x y Hx Hy; [contradiction|].
  cbn [app] in H. inversion H as [|? ? Hs Hall]; subst.
  destruct Hx as [<-|Hx].
  - rewrite Forall_forall in Hall. apply Hall. apply in_or_app. now right.
  - now apply IH.
Qed.

(** X15. The ranking keeps the best: a group that is left out of the
    ranking has an [avg_bikes] that no kept entry is below. *)
Theorem ranking_keeps_the_best (rows : list Row) (e e' : Ranking.t) :
  In e (SQL_RANKING_QUERY rows) ->
  In e' (grouped rows) ->
  ~ In e' (SQL_RANKING_QUERY rows) ->
  avg_bikes_ge e e'.
Proof.
  unfold SQL_RANKING_QUERY. intros He He' Hout.
  set (s := order_by_avg_bikes_desc (grouped rows)) in *.
  assert (Hs : StronglySorted avg_bikes_ge (firstn RANKING_LIMIT s ++ skipn RANKING_LIMIT s))
    by (rewrite firstn_skipn; apply order_by_sorted).
  apply (sorted_app_cross _ _ _ Hs); [exact He|].
  assert (Hin : In e' (firstn RANKING_LIMIT s ++ skipn RANKING_LIMIT s))
    by (rewrite firstn_skipn; now apply order_by_In).
  apply in_app_or in Hin. destruct Hin; [contradiction|assumption].
Qed.

Lemma ranking_keeps_the_best_witness :
  let kept := aggregate (Some "B"%string, None)
                        (group_rows (Some "B"%string, None) sample_table) in
  let left_out := aggregate (Some "A"%string, None)
                            (group_rows (Some "A"%string, None) sample_table) in
  In kept (SQL_RANKING_QUERY sample_table) /\
  In left_out (grouped sample_table) /\
  ~ In left_out (SQL_RANKING_QUERY sample_table) /\
  avg_bikes_ge kept left_out.
Proof.
  intros kept left_out.
  assert (H1 : In kept (SQL_RANKING_QUERY sample_table))
    by (vm_compute; repeat (first [left; reflexivity | right])).
  assert (H2 : In left_out (grouped sample_table))
    by (vm_compute; repeat (first [left; reflexivity | right])).
  assert (H3 : ~ In left_out (SQL_RANKING_QUERY sample_table)).
  { intros H. vm_compute in H.
    repeat (destruct H as [H|H]; [discriminate H|]). exact H. }
  split; [exact H1|]. split; [exact H2|]. split; [exact H3|].
  exact (ranking_keeps_the_best sample_table kept left_out H1 H2 H3).
Defined.

Lemma non_null_cast_real (xs : list (option Z)) :
  Sql.non_null (map Sql.cast_real xs) = map inject_Z (Sql.non_null xs).
Proof.
  induction xs as [|[a|] xs IH]; simpl; [reflexivity| |exact IH].
  now rewrite IH.
Qed.

Lemma Qsum_inject_Z (vs : list Z) :
  Sql.Qsum (map inject_Z vs) == inject_Z (Sql.Zsum vs).
Proof.
  induction vs as [|v vs IH]; simpl; [reflexivity|].
  rewrite IH, inject_Z_plus. reflexivity.
Qed.

Lemma Qsum_bounds (lo hi : Q) (vs : list Q) :
  (forall x, In x vs -> lo <= x /\ x <= hi) ->
  inject_Z (Z.of_nat (List.length vs)) * lo <= Sql.Qsum vs /\
  Sql.Qsum vs <= inject_Z (Z.of_nat (List.length vs)) * hi.
Proof.
  induction vs as [|v vs IH]; intros H.
  - cbn [List.length Z.of_nat Sql.Qsum fold_right].
    change (inject_Z 0) with 0. split; lra.
  - destruct (H v (or_introl eq_refl)) as [Hlo Hhi].
    destruct IH as [IHlo IHhi]; [intros x Hx; apply H; now right|].
    cbn [List.length Sql.Qsum fold_right].
    fold (Sql.Qsum vs).
    rewrite Nat2Z.inj_succ, <- Z.add_1_r, inject_Z_plus.
    change (inject_Z 1) with 1. split; lra.
Qed.

Lemma Qred_bounds (lo hi q : Q) :
  lo <= q /\ q <= hi -> lo <= Qred q /\ Qred q <= hi.
Proof.
  intros [H1 H2]. pose proof (Qred_correct q) as E. split.
  - apply Qle_trans with q; [exact H1|]. apply Qle_lteq. right. now symmetry.
  - apply Qle_trans with q; [|exact H2]. apply Qle_lteq. now right.
Qed.

Lemma Qred_lower (lo q : Q) : lo <= q -> lo <= Qred q.
Proof. intros H. now apply (Qred_bounds lo q q (conj H (Qle_refl q))). Qed.

Lemma length_pos_Q {A : Type} (a : A) (l : list A) :
  0 < inject_Z (Z.of_nat (List.length (a :: l))).
Proof.
  change 0 with (inject_Z 0). rewrite <- Zlt_Qlt. cbn [List.length]. lia.
Qed.

Lemma avg_some (xs : list (option Q)) (a : Q) :
  Sql.avg xs = Some a ->
  exists v vs,
    Sql.non_null xs = v :: vs /\
    a = Qred (Sql.Qsum (v :: vs) / inject_Z (Z.of_nat (List.length (v :: vs)))).
Proof.
  unfold Sql.avg. destruct (Sql.non_null xs) as [|v vs]; [discriminate|].
  intros H. exists v, vs. split; [reflexivity|congruence].
Qed.

Lemma In_non_null {A : Type} (xs : list (option A)) (x : A) :
  In x (Sql.non_null xs) -> In (Some x) xs.
Proof.
  induction xs as [|[y|] xs IH]; simpl; [tauto| |].
  - intros [->|H]; [now left|right; now apply IH].
  - intros H. right. now apply IH.
Qed.

(** The mean of values taken in an interval lies in that interval. *)
Lemma avg_bounds (lo hi : Q) (xs : list (option Q)) (a : Q) :
  (forall x, In (Some x) xs -> lo <= x /\ x <= hi) ->
  Sql.avg xs = Some a ->
  lo <= a /\ a <= hi.
Proof.
  intros H Ha. destruct (avg_some xs a Ha) as (v & vs & E & ->).
  assert (Hnn : forall x, In x (v :: vs) -> lo <= x /\ x <= hi).
  { rewrite <- E. intros x Hx. apply H. now apply In_non_null. }
  apply Qred_bounds.
  destruct (Qsum_bounds lo hi (v :: vs) Hnn) as [Hlo Hhi].
  assert (Hn := length_pos_Q v vs).
  split.
  - apply Qle_shift_div_l; [exact Hn|]. lra.
  - apply Qle_shift_div_r; [exact Hn|]. lra.
Qed.

Lemma utilization_ratio_bounds (r : Row) (u : Q) :
  counts_non_negative r ->
  utilization_ratio r = Some u ->
  0 <= u /\ u <= 1.
Proof.
  unfold counts_non_negative, utilization_ratio. intros [Hb Hd].
  destruct (num_bikes_available r) as [b|]; [|discriminate].
  destruct (num_docks_available r) as [d|]; [|discriminate].
  cbn [Sql.cast_real option_map Sql.add Sql.div].
  destruct (Z.eqb_spec (b + d) 0) as [|NE]; [discriminate|].
  intros [= <-].
  assert (Hpos : 0 < inject_Z (b + d)).
  { change 0 with (inject_Z 0). rewrite <- Zlt_Qlt. lia. }
  assert (Hb' : 0 <= inject_Z b).
  { change 0 with (inject_Z 0). rewrite <- Zle_Qle. exact Hb. }
  assert (Hbd : inject_Z b <= inject_Z (b + d)).
  { rewrite <- Zle_Qle. lia. }
  split.
  - apply Qle_shift_div_l; [exact Hpos|]. lra.
  - apply Qle_shift_div_r; [exact Hpos|]. lra.
Qed.

Lemma round_percent_bounds (q : Q) (p : Q) :
  0 <= q -> q <= 100 # 1 ->
  Sql.round (Some q) 2 = Some p ->
  0 <= p /\ p <= 100 # 1.
Proof.
  intros Hlo Hhi H.
  assert (E : p = Qred (inject_Z (Sql.round_half_away (q * (100 # 1))) / (100 # 1))).
  { unfold Sql.round in H. cbn [option_map] in H.
    change (inject_Z (10 ^ Z.of_nat 2)) with (100 # 1) in H. congruence. }
  rewrite E. clear E H. apply Qred_bounds.
  unfold Sql.round_half_away.
  assert (H0 : 0 <= q * (100 # 1)) by nra.
  assert (H1 : q * (100 # 1) <= 10000 # 1) by nra.
  destruct (Qle_bool 0 (q * (100 # 1))) eqn:B.
  2:{ apply Qle_bool_iff in H0. congruence. }
  assert (F0 : (0 <= Qfloor (q * (100 # 1) + (1 # 2)))%Z).
  { change 0%Z with (Qfloor (1 # 2)). apply Qfloor_resp_le. lra. }
  assert (F1 : (Qfloor (q * (100 # 1) + (1 # 2)) <= 10000)%Z).
  { change 10000%Z with (Qfloor ((10000 # 1) + (1 # 2))). apply Qfloor_resp_le. lra. }
  rewrite Zle_Qle in F0, F1.
  split.
  - apply Qle_shift_div_l; [reflexivity|].
    change (inject_Z 0) with 0 in F0. lra.
  - apply Qle_shift_div_r; [reflexivity|].
    change (inject_Z 10000) with (10000 # 1) in F1. lra.
Qed.

Lemma sum_some (xs : list (option Z)) (s : Z) :
  Sql.sum xs = Some s -> Sql.non_null xs <> [] /\ s = Sql.Zsum (Sql.non_null xs).
Proof.
  unfold Sql.sum. destruct (Sql.non_null xs) as [|v vs]; [discriminate|].
  intros H. split; [discriminate|congruence].
Qed.

Lemma Zsum_nonneg (l : list Z) :
  (forall x, In x l -> (0 <= x)%Z) -> (0 <= Sql.Zsum l)%Z.
Proof.
  induction l as [|x l IH]; intros H; simpl; [lia|].
  assert (0 <= x)%Z by (apply H; now left).
  assert (0 <= Sql.Zsum l)%Z by (apply IH; intros; apply H; now right).
  unfold Sql.Zsum in *. lia.
Qed.

Lemma Qsum_nonneg (l : list Q) :
  (forall x, In x l -> 0 <= x) -> 0 <= Sql.Qsum l.
Proof.
  induction l as [|x l IH]; intros H; simpl; [lra|].
  assert (0 <= x) by (apply H; now left).
  assert (0 <= Sql.Qsum l) by (apply IH; intros; apply H; now right).
  unfold Sql.Qsum in *. lra.
Qed.

(** X16. When no count of a group is negative, its aggregates stay in
    range: [total_bikes] and [avg_bikes] are not negative, and
    [avg_utilization_percent] lies between 0 and 100. *)
Theorem aggregates_in_range (k : group_key) (rows : list Row) :
  (forall r, In r rows -> counts_non_negative r) ->
  let e := aggregate k rows in
  (forall s, Ranking.total_bikes e = Some s -> (0 <= s)%Z) /\
  (forall a, Ranking.avg_bikes e = Some a -> 0 <= a) /\
  (forall u, Ranking.avg_utilization_percent e = Some u ->
             0 <= u /\ u <= 100 # 1).
Proof.
  intros H e. subst e.
  cbn [aggregate Ranking.total_bikes Ranking.avg_bikes Ranking.avg_utilization_percent].
  assert (Hb : forall b, In (Some b) (map num_bikes_available rows) -> (0 <= b)%Z).
  { intros b Hin. apply in_map_iff in Hin. destruct Hin as (r & E & Hr).
    destruct (H r Hr) as [Hb _]. now rewrite E in Hb. }
  split; [|split].
  - intros s Hs. destruct (sum_some _ s Hs) as [_ ->].
    apply Zsum_nonneg. intros b Hin. apply Hb. now apply In_non_null.
  - intros a Ha.
    destruct (avg_some _ a Ha) as (v & vs & E & ->). apply Qred_lower.
    assert (Hsum : 0 <= Sql.Qsum (v :: vs)).
    { apply Qsum_nonneg. rewrite <- E. intros x Hx.
      apply In_non_null in Hx. apply in_map_iff in Hx.
      destruct Hx as (r & Er & Hr). destruct (H r Hr) as [Hb' _].
      destruct (num_bikes_available r) as [b|]; [|discriminate].
      cbn [Sql.cast_real option_map] in Er. injection Er as <-.
      change 0 with (inject_Z 0). now rewrite <- Zle_Qle. }
    apply Qle_shift_div_l; [apply length_pos_Q|]. lra.
  - intros u Hu.
    destruct (Sql.avg (map utilization_ratio rows)) as [a|] eqn:Ea;
      [|discriminate].
    assert (Ha : 0 <= a /\ a <= 1).
    { apply (avg_bounds 0 1 (map utilization_ratio rows) a); [|exact Ea].
      intros x Hin. apply in_map_iff in Hin. destruct Hin as (r & E & Hr).
      apply (utilization_ratio_bounds r x (H r Hr) E). }
    cbn [Sql.mul option_map] in Hu.
    apply (round_percent_bounds (a * (100 # 1)) u); [nra|nra|exact Hu].
Qed.

Lemma aggregates_in_range_witness :
  let k := (Some "S1"%string, Some "Meriadeck"%string) in
  let rows := [sample_row "2026-01-01T00:00:00" (Some 4%Z) (Some 6%Z);
               sample_row "2026-01-01T00:05:00" (Some 0%Z) (Some 0%Z);
               sample_row "2026-01-01T00:10:00" None (Some 3%Z);
               sample_row "2026-01-01T00:15:00" (Some 7%Z) (Some 0%Z)] in
  (forall r, In r rows -> counts_non_negative r) /\
  Ranking.avg_utilization_percent (aggregate k rows) = Some (70 # 1) /\
  0 <= 70 # 1 /\ 70 # 1 <= 100 # 1.
Proof.
  intros k rows.
  assert (H : forall r, In r rows -> counts_non_negative r).
  { intros r [<-|[<-|[<-|[<-|[]]]]]; split; simpl; lia. }
  assert (E : Ranking.avg_utilization_percent (aggregate k rows) = Some (70 # 1))
    by reflexivity.
  split; [exact H|]. split; [exact E|].
  exact (proj2 (proj2 (aggregates_in_range k rows H)) (70 # 1) E).
Defined.

(** X17. The columns of an entry agree: [total_bikes] and [avg_bikes] are
    NULL together, exactly when no row of the group has a bike count;
    otherwise [total_bikes] is the sum of the counts that are there, and,
    when none of them is negative, [avg_bikes] is zero exactly when
    [total_bikes] is. *)
Theorem total_and_avg_null_together (k : group_key) (rows : list Row) :
  let e := aggregate k rows in
  let counted := Sql.non_null (map num_bikes_available rows) in
  (Ranking.total_bikes e = None <-> counted = []) /\
  (Ranking.avg_bikes e = None <-> counted = []) /\
  (forall s, Ranking.total_bikes e = Some s -> s = Sql.Zsum counted) /\
  ((forall b, In b counted -> (0 <= b)%Z) ->
   forall s a, Ranking.total_bikes e = Some s -> Ranking.avg_bikes e = Some a ->
               (a == 0 <-> s = 0%Z)).
Proof.
  intros e counted. subst e counted.
  cbn [aggregate Ranking.total_bikes Ranking.avg_bikes].
  unfold Sql.sum, Sql.avg.
  rewrite <- (map_map num_bikes_available Sql.cast_real), non_null_cast_real.
  destruct (Sql.non_null (map num_bikes_available rows)) as [|v vs].
  - cbn [map]. repeat split; try reflexivity; discriminate.
  - cbn [map]. split; [split; discriminate|]. split; [split; discriminate|].
    split; [intros s Hs; congruence|].
    intros Hnn s a Hs Ha.
    assert (Es : s = Sql.Zsum (v :: vs)) by congruence.
    clear Hs. subst s.
    change (inject_Z v :: map inject_Z vs) with (map inject_Z (v :: vs)) in Ha.
    rewrite length_map in Ha.
    assert (Hn := length_pos_Q v vs).
    assert (E : a == inject_Z (Sql.Zsum (v :: vs)) /
                     inject_Z (Z.of_nat (List.length (v :: vs)))).
    { assert (Ea : a = Qred (Sql.Qsum (map inject_Z (v :: vs)) /
                             inject_Z (Z.of_nat (List.length (v :: vs)))))
        by congruence.
      rewrite Ea. eapply Qeq_trans; [apply Qred_correct|].
      apply Qdiv_comp; [apply Qsum_inject_Z|reflexivity]. }
    set (n := inject_Z (Z.of_nat (List.length (v :: vs)))) in *.
    set (t := Sql.Zsum (v :: vs)) in *.
    split.
    + intros A0.
      assert (T0 : inject_Z t == 0).
      { assert (X : inject_Z t == a * n).
        { rewrite E. field. intros Z0. rewrite Z0 in Hn.
          now apply Qlt_irrefl in Hn. }
        rewrite X, A0. ring. }
      unfold Qeq, inject_Z in T0. cbn [Qnum Qden] in T0. lia.
    + intros T0. rewrite E, T0. change (inject_Z 0%Z) with 0.
      unfold Qdiv. ring.
Qed.

Lemma total_and_avg_null_together_witness :
  let k := (Some "S1"%string, Some "Meriadeck"%string) in
  let rows := [sample_row "2026-01-01T00:00:00" (Some 0%Z) (Some 6%Z);
               sample_row "2026-01-01T00:05:00" None (Some 3%Z);
               sample_row "2026-01-01T00:10:00" (Some 0%Z) (Some 0%Z)] in
  (forall b, In b (Sql.non_null (map num_bikes_available rows)) -> (0 <= b)%Z) /\
  Ranking.total_bikes (aggregate k rows) = Some 0%Z /\
  Ranking.avg_bikes (aggregate k rows) = Some 0 /\
  (0 == 0 <-> 0%Z = 0%Z).
Proof.
  intros k rows.
  assert (H : forall b, In b (Sql.non_null (map num_bikes_available rows)) ->
                        (0 <= b)%Z).
  { intros b [<-|[<-|[]]]; lia. }
  split; [exact H|]. split; [reflexivity|]. split; [reflexivity|].
  exact (proj2 (proj2 (proj2 (total_and_avg_null_together k rows)))
               H 0%Z 0 eq_refl eq_refl).
Defined.
(* ===================================================================== *)
(** * Further properties of the analysis and of the collector's loop *)
(* ===================================================================== *)



(** X19. When the storage fails under the analysis of extract.py, the
    analysis returns normally and shows the SQL-error message: alone when
    the connection cannot be opened, after the header when the query fails;
    no ranking line is printed, the file is as before, and an opened
    connection is closed. *)
Theorem analysis_storage_error (env : Env) (w : World) :
  read_fails (storage_fault env) = true ->
  Extract.analyze_and_rank_stations env w =
  (inr tt,
   mkWorld (table w) (conn_after (storage_fault env)) (ticks w)
           (out w ++
            match storage_fault env with
            | ConnectFails => [MsgAnalysisSqlError]
            | _ => [MsgRankingHeader; MsgAnalysisSqlError]
            end)).
Proof.
  intros F. rewrite Extract_analyze_run.
  destruct (storage_fault env); try discriminate; reflexivity.
Qed.

Lemma analysis_storage_error_witness :
  let env := mkEnv TransportError sample_clock ExecuteFails in
  let w := mkWorld (Some [sample_row "2026-01-01T00:00:00" (Some 4%Z) (Some 6%Z)])
                   None 0 [] in
  read_fails (storage_fault env) = true /\
  Extract.analyze_and_rank_stations env w =
  (inr tt, mkWorld (table w) (Some (mkConn [] true)) 0
                   [MsgRankingHeader; MsgAnalysisSqlError]).
Proof.
  intros env w. split; [reflexivity|].
  exact (analysis_storage_error env w eq_refl).
Defined.

Lemma Extract_cycle_frame env w :
  exists w' written,
    Extract.run_ingestion_cycle env w = (inr tt, w') /\
    disk w' = disk w ++ written /\
    (ticks w <= ticks w')%nat /\
    (fetched_stations (http_reply env) = None -> written = []).
Proof.
  destruct (fetched_stations (http_reply env)) as [l|] eqn:H.
  - rewrite (Extract_cycle_fetched env w l H).
    destruct l as [|s0 l].
    + rewrite Extract_load_empty. eexists. exists [].
      rewrite app_nil_r.
      repeat split; auto; cbn [ticks ticked]; try lia; try discriminate.
    + rewrite Extract_load_run by discriminate.
      destruct (fault_hits (storage_fault env) (List.length (s0 :: l))).
      * eexists. exists []. rewrite app_nil_r.
        split; [reflexivity|]. rewrite disk_after_fault.
        repeat split; auto; cbn [ticks ticked]; try lia; try discriminate.
      * eexists. eexists.
        split; [reflexivity|]. rewrite disk_of_table.
        repeat split; auto; cbn [ticks ticked]; try lia; try discriminate.
  - destruct (Extract_cycle_not_fetched env w H) as (m & E). rewrite E.
    eexists. exists []. rewrite app_nil_r.
    repeat split; auto; cbn [ticks shown]; try lia; try discriminate.
Qed.

Lemma loop_body_frame env w :
  exists w' written,
    loop_body env w = (inr tt, w') /\
    disk w' = disk w ++ written /\
    (ticks w + 2 <= ticks w')%nat /\
    (fetched_stations (http_reply env) = None -> written = []).
Proof.
  unfold loop_body. rewrite bind_run. unfold datetime_now_isoformat at 1.
  cbv beta iota. fold (ticked w).
  destruct (Extract_cycle_frame env (ticked w)) as (w1 & written & E1 & D1 & T1 & N1).
  rewrite bind_run, E1.
  destruct (Extract_analyze_returns env w1) as (c' & o' & E2 & _).
  rewrite bind_run, E2. rewrite bind_run. unfold datetime_now_isoformat, ret.
  cbv beta iota. cbn [table conn ticks out].
  eexists. exists written. split; [reflexivity|].
  change (disk (ticked w)) with (disk w) in D1.
  cbn [ticks ticked] in *.
  split; [|split; [lia|exact N1]].
  rewrite <- D1. unfold disk. reflexivity.
Qed.

(** X20. No failure is fatal to the collector's loop, and the table only
    grows: whatever the network answers and whatever storage fault each
    turn meets, every turn ends normally, the rows stored before are kept
    in place with new rows only added after them, and the clock is read at
    least twice per turn.  When every fetch fails the table is unchanged. *)
Theorem main_loop_only_appends (envs : list Env) (w : World) :
  exists w' written,
    main_loop envs w = (inr tt, w') /\
    disk w' = disk w ++ written /\
    (ticks w + 2 * List.length envs <= ticks w')%nat /\
    (Forall (fun env => fetched_stations (http_reply env) = None) envs ->
     written = []).
Proof.
  revert w. induction envs as [|env envs IH]; intros w.
  - exists w, []. cbn. rewrite app_nil_r. repeat split; auto. lia.
  - cbn [main_loop]. rewrite bind_run.
    destruct (loop_body_frame env w) as (w1 & wr1 & E1 & D1 & T1 & N1).
    rewrite E1.
    destruct (IH w1) as (w2 & wr2 & E2 & D2 & T2 & N2).
    rewrite E2. exists w2, (wr1 ++ wr2).
    split; [reflexivity|]. split; [|split].
    + rewrite D2, D1. now rewrite app_assoc.
    + cbn [List.length]. lia.
    + intros HF. inversion HF as [|? ? H1 H2]; subst.
      rewrite (N1 H1), (N2 H2). reflexivity.
Qed.

Lemma main_loop_only_appends_witness :
  let down := mkEnv TransportError sample_clock NoFault in
  let teapot := mkEnv (Response 418 (inr sample_doc)) sample_clock NoFault in
  let w := mkWorld (Some [sample_row "2026-01-01T00:00:00" (Some 4%Z) (Some 6%Z)])
                   None 0 [] in
  Forall (fun env => fetched_stations (http_reply env) = None) [down; teapot] /\
  disk (snd (main_loop [down; teapot] w)) = disk w.
Proof.
  intros down teapot w.
  assert (H : Forall (fun env => fetched_stations (http_reply env) = None)
                     [down; teapot])
    by (repeat constructor).
  split; [exact H|].
  destruct (main_loop_only_appends [down; teapot] w) as (w' & written & E & D & _ & N).
  rewrite E. cbn [snd]. rewrite D, (N H). apply app_nil_r.
Defined.

(** X21. A cycle of app.py that does not return [True] (a failed fetch, an
    undecodable body, an empty answer or a failed write) leaves the rows of
    the table as they were.  When the table was in the file before the
    cycle, the file is unchanged and the latest-snapshot read does exactly
    what it did.  On a file without the table the read raised before the
    cycle; after it the read returns the empty frame if the cycle got as far
    as [CREATE TABLE] (a non-empty answer, a connection that opened and a
    statement that ran), and raises as before otherwise. *)
Theorem unsuccessful_cycle_keeps_display (env env_r : Env) (w : World) :
  fst (App.run_ingestion_cycle env w) <> inr (Some true) ->
  let after := snd (App.run_ingestion_cycle env w) in
  disk after = disk w /\
  (table w <> None ->
   table after = table w /\
   fst (App.get_station_data_for_display env_r after) =
   fst (App.get_station_data_for_display env_r w)) /\
  (table w = None ->
   storage_fault env_r = NoFault ->
   fst (App.get_station_data_for_display env_r w) = inl OtherException /\
   fst (App.get_station_data_for_display env_r after) =
   match fetched_stations (http_reply env) with
   | Some (_ :: _) =>
       if read_fails (storage_fault env) then inl OtherException else inr []
   | _ => inl OtherException
   end).
Proof.
  intros H after.
  assert (T : table after =
              match fetched_stations (http_reply env) with
              | Some (_ :: _) => table_after_fault (storage_fault env) w
              | _ => table w
              end).
  { subst after. destruct (fetched_stations (http_reply env)) as [l|] eqn:F.
    - rewrite (App_cycle_fetched env w l F) in *.
      destruct l as [|s0 l].
      + now rewrite App_load_empty.
      + rewrite App_load_run in * by discriminate.
        destruct (fault_hits (storage_fault env) (List.length (s0 :: l)));
          [reflexivity|]. exfalso. now apply H.
    - destruct (App_cycle_not_fetched env w F) as (m & E). now rewrite E. }
  assert (D : disk after = disk w).
  { unfold disk at 1. rewrite T.
    destruct (fetched_stations (http_reply env)) as [[|s0 l]|];
      try reflexivity.
    unfold table_after_fault. destruct (storage_fault env); reflexivity. }
  split; [exact D|]. split.
  - intros Tw.
    assert (T' : table after = table w).
    { rewrite T.
      destruct (fetched_stations (http_reply env)) as [[|s0 l]|];
        try reflexivity.
      unfold table_after_fault, disk.
      destruct (table w); [|congruence]. now destruct (storage_fault env). }
    split; [exact T'|].
    rewrite !App_display_run, D. unfold select_fails. rewrite T'.
    now destruct (storage_fault env_r).
  - intros Tw Fr. rewrite !App_display_run, Fr. cbn [fst].
    unfold select_fails. rewrite Tw. split; [reflexivity|].
    rewrite D, T.
    assert (Dw : disk w = []) by (unfold disk; now rewrite Tw).
    rewrite Dw.
    destruct (fetched_stations (http_reply env)) as [[|s0 l]|];
      try (now rewrite Tw).
    unfold table_after_fault. rewrite Tw.
    destruct (storage_fault env); reflexivity.
Qed.

Lemma unsuccessful_cycle_keeps_display_witness :
  let env := mkEnv (Response 200 (inr sample_doc)) sample_clock (InsertFails 0) in
  let reader := mkEnv TransportError sample_clock NoFault in
  let old := sample_row "2025-12-31T23:55:00" (Some 4%Z) (Some 6%Z) in
  let w := mkWorld (Some [old]) None 0 [] in
  fst (App.run_ingestion_cycle env w) <> inr (Some true) /\
  table w <> None /\
  fst (App.get_station_data_for_display reader (snd (App.run_ingestion_cycle env w))) =
  inr [old] /\
  fst (App.run_ingestion_cycle env empty_world) <> inr (Some true) /\
  table empty_world = None /\
  fst (App.get_station_data_for_display reader empty_world) = inl OtherException /\
  fst (App.get_station_data_for_display reader
         (snd (App.run_ingestion_cycle env empty_world))) = inr [].
Proof.
  intros env reader old w.
  assert (H : fst (App.run_ingestion_cycle env w) <> inr (Some true))
    by (cbv; discriminate).
  assert (T : table w <> None) by discriminate.
  assert (H' : fst (App.run_ingestion_cycle env empty_world) <> inr (Some true))
    by (cbv; discriminate).
  split; [exact H|]. split; [exact T|].
  split; [exact (proj2 (proj1 (proj2 (unsuccessful_cycle_keeps_display
                                        env reader w H)) T))|].
  split; [exact H'|]. split; [reflexivity|].
  exact (proj2 (proj2 (unsuccessful_cycle_keeps_display env reader empty_world H'))
               eq_refl eq_refl).
Defined.

(* ===================================================================== *)
(** * The analysis of the dashboard, and the overflow of SUM *)
(* ===================================================================== *)

(** The ways out of the analysis of app.py. *)
Lemma App_ranking_cases env (object_round_raises : bool) w :
  let closed_with o := mkWorld (table w) (Some (mkConn [] true)) (ticks w) o in
  (storage_fault env = ConnectFails /\
   App.get_ranking_analysis env object_round_raises w =
   (inr [], mkWorld (table w) None (ticks w) (out w ++ [MsgAnalysisExecError])))
  \/
  (storage_fault env <> ConnectFails /\
   ((select_fails (storage_fault env) w = true \/
     ranking_overflows (disk w) = true) /\
    App.get_ranking_analysis env object_round_raises w =
    (inr [], closed_with (out w ++ [MsgAnalysisUnexpected]))
    \/
    (select_fails (storage_fault env) w = false /\
     ranking_overflows (disk w) = false /\
     is_empty (SQL_RANKING_QUERY (disk w)) = true /\
     App.get_ranking_analysis env object_round_raises w =
     (inr [], closed_with (out w)))
    \/
    (select_fails (storage_fault env) w = false /\
     ranking_overflows (disk w) = false /\
     is_empty (SQL_RANKING_QUERY (disk w)) = false /\
     exists frame,
       App.get_ranking_analysis env object_round_raises w =
       (inr frame,
        closed_with (if is_empty frame then out w ++ [MsgAnalysisUnexpected]
                     else out w))))).
Proof.
  intros closed_with. rewrite App_ranking_run.
  assert (NE : forall (b : bool) (l : list Ranking.t),
             is_empty l = false -> is_empty (map (format_row b) l) = false)
    by (intros b [|e l]; [discriminate|reflexivity]).
  destruct (storage_fault env) eqn:F; [| left; now split | | |];
    (right; split; [discriminate|];
     destruct (select_fails _ w) eqn:S; [left; split; [now left|reflexivity]|];
     unfold run_ranking_query;
     destruct (ranking_overflows (disk w)) eqn:O;
     [left; split; [now right|reflexivity]|];
     right;
     destruct (is_empty (SQL_RANKING_QUERY (disk w))) eqn:E;
     [left; repeat split; reflexivity|];
     right; split; [reflexivity|]; split; [reflexivity|]; split; [reflexivity|];
     destruct (column_is_object (SQL_RANKING_QUERY (disk w)) && object_round_raises);
     [exists []; reflexivity|];
     exists (map (format_row (column_is_object (SQL_RANKING_QUERY (disk w))))
                 (SQL_RANKING_QUERY (disk w)));
     rewrite (NE (column_is_object (SQL_RANKING_QUERY (disk w))) _ E);
     reflexivity).
Qed.

(** X22. The analysis of app.py never raises, whatever the storage does,
    and it is a pure read: the file and the clock are untouched and the
    connection is closed.  A connection that cannot be opened is the only
    failure reported as an SQL error; a query that fails (a storage fault,
    a file without the table, a [SUM] beyond 64 bits) comes out of pandas
    and is reported as an unexpected error; both give the empty frame.  On
    an empty table the empty frame is returned without any message. *)
Theorem ranking_analysis_never_raises
  (env : Env) (object_round_raises : bool) (w : World) :
  let run := App.get_ranking_analysis env object_round_raises w in
  (exists frame, fst run = inr frame) /\
  table (snd run) = table w /\
  ticks (snd run) = ticks w /\
  released (conn (snd run)) /\
  (storage_fault env = ConnectFails ->
   fst run = inr [] /\ out (snd run) = out w ++ [MsgAnalysisExecError]) /\
  (storage_fault env <> ConnectFails ->
   select_fails (storage_fault env) w = true \/ ranking_overflows (disk w) = true ->
   fst run = inr [] /\ out (snd run) = out w ++ [MsgAnalysisUnexpected]) /\
  (read_fails (storage_fault env) = false ->
   table w = Some [] ->
   fst run = inr [] /\ out (snd run) = out w).
Proof.
  intros run. subst run.
  assert (RF : read_fails (storage_fault env) = false ->
               storage_fault env <> ConnectFails)
    by (intros R C; rewrite C in R; discriminate).
  destruct (App_ranking_cases env object_round_raises w)
    as [(C & E)|(C & [(Q & E)|[(S & O & Em & E)|(S & O & Em & frame & E)]])];
    rewrite E; cbn [fst snd table ticks conn out released pending closed].
  - split; [eauto|]. split; [reflexivity|]. split; [reflexivity|].
    split; [exact I|]. split; [intros _; split; reflexivity|].
    split; [intros NC; congruence|]. intros R. apply RF in R. congruence.
  - split; [eauto|]. split; [reflexivity|]. split; [reflexivity|].
    split; [now split|]. split; [intros C'; congruence|].
    split; [intros _ _; split; reflexivity|].
    intros R T. exfalso. destruct Q as [Q|Q].
    + unfold select_fails in Q. rewrite T in Q.
      destruct (storage_fault env); discriminate.
    + unfold disk in Q. rewrite T in Q. discriminate.
  - split; [eauto|]. split; [reflexivity|]. split; [reflexivity|].
    split; [now split|]. split; [intros C'; congruence|].
    split; [intros _ [X|X]; congruence|].
    intros _ _. split; reflexivity.
  - split; [eauto|]. split; [reflexivity|]. split; [reflexivity|].
    split; [now split|]. split; [intros C'; congruence|].
    split; [intros _ [X|X]; congruence|].
    intros _ T. unfold disk in Em. rewrite T in Em. discriminate.
Qed.

Lemma ranking_analysis_never_raises_witness :
  let env := mkEnv TransportError sample_clock NoFault in
  let big := mkRow "2026-01-01T00:00:00" (Some "S1"%string) None
                   (Some (2 ^ 62)%Z) (Some 1%Z) None None in
  let w := mkWorld (Some [big; big]) None 0 [] in
  storage_fault env <> ConnectFails /\
  (select_fails (storage_fault env) w = true \/ ranking_overflows (disk w) = true) /\
  fst (App.get_ranking_analysis env false w) = inr [] /\
  out (snd (App.get_ranking_analysis env false w)) = [MsgAnalysisUnexpected] /\
  fst (App.get_ranking_analysis env false empty_world) = inr [] /\
  out (snd (App.get_ranking_analysis env false empty_world)) = [MsgAnalysisUnexpected].
Proof.
  intros env big w.
  assert (H1 : storage_fault env <> ConnectFails) by discriminate.
  assert (H2 : select_fails (storage_fault env) w = true \/
               ranking_overflows (disk w) = true) by (right; reflexivity).
  assert (H3 : select_fails (storage_fault env) empty_world = true \/
               ranking_overflows (disk empty_world) = true) by (left; reflexivity).
  split; [exact H1|]. split; [exact H2|].
  destruct (ranking_analysis_never_raises env false w) as (_ & _ & _ & _ & _ & A & _).
  destruct (ranking_analysis_never_raises env false empty_world)
    as (_ & _ & _ & _ & _ & B & _).
  split; [exact (proj1 (A H1 H2))|]. split; [exact (proj2 (A H1 H2))|].
  split; [exact (proj1 (B H1 H3))|exact (proj2 (B H1 H3))].
Defined.

Lemma running_total_bounded (B : Z) (vs : list Z) :
  forall acc,
    (0 <= B)%Z ->
    (forall v, In v vs -> (Z.abs v <= B)%Z) ->
    (Z.abs acc + Z.of_nat (List.length vs) * B <= Sql.INT64_MAX)%Z ->
    Sql.running_total_overflows acc vs = false.
Proof.
  induction vs as [|v vs IH]; intros acc HB Hv Hacc; [reflexivity|].
  cbn [Sql.running_total_overflows].
  assert (Hv0 : (Z.abs v <= B)%Z) by (apply Hv; now left).
  cbn [List.length] in Hacc. rewrite Nat2Z.inj_succ, Z.mul_succ_l in Hacc.
  assert (Hn : (0 <= Z.of_nat (List.length vs) * B)%Z)
    by (apply Z.mul_nonneg_nonneg; lia).
  assert (R : ((Sql.INT64_MIN <=? acc + v) && (acc + v <=? Sql.INT64_MAX))%Z = true).
  { apply andb_true_intro. unfold Sql.INT64_MIN, Sql.INT64_MAX in *.
    split; [apply Z.leb_le|apply Z.leb_le]; lia. }
  rewrite R. apply IH; [exact HB| |lia].
  intros x Hx. apply Hv. now right.
Qed.

Lemma non_null_length {A : Type} (xs : list (option A)) :
  (List.length (Sql.non_null xs) <= List.length xs)%nat.
Proof.
  induction xs as [|[a|] xs IH]; cbn [Sql.non_null List.length]; lia.
Qed.

Lemma group_rows_length (k : group_key) (rows : list Row) :
  (List.length (group_rows k rows) <= List.length rows)%nat.
Proof. apply filter_length_le. Qed.

(** X23. [SUM] cannot overflow on counts of a realistic size: when every
    bike count is below 2^31 in absolute value and the table has at most
    2^31 rows, no running total leaves the 64-bit range, and the ranking
    query does not fail on the rows. *)
Theorem realistic_counts_never_overflow (rows : list Row) :
  (forall r b, In r rows -> num_bikes_available r = Some b ->
               (Z.abs b < 2 ^ 31)%Z) ->
  (Z.of_nat (List.length rows) <= 2 ^ 31)%Z ->
  ranking_overflows rows = false /\
  run_ranking_query rows = inr (SQL_RANKING_QUERY rows).
Proof.
  intros Hb Hn.
  assert (O : ranking_overflows rows = false).
  { unfold ranking_overflows. apply Bool.not_true_is_false. intros H.
    apply existsb_exists in H. destruct H as (k & _ & H).
    unfold Sql.sum_overflows in H.
    rewrite (running_total_bounded (2 ^ 31)) in H; [discriminate|lia| |].
    - intros v Hv. apply In_non_null in Hv. apply in_map_iff in Hv.
      destruct Hv as (r & E & Hr). apply filter_In in Hr.
      specialize (Hb r v (proj1 Hr) E). lia.
    - assert (L1 := non_null_length (map num_bikes_available (group_rows k rows))).
      rewrite length_map in L1.
      assert (L2 := group_rows_length k rows).
      unfold Sql.INT64_MAX. cbn [Z.abs].
      assert (Z.of_nat (List.length
                (Sql.non_null (map num_bikes_available (group_rows k rows)))) * 2 ^ 31
              <= 2 ^ 31 * 2 ^ 31)%Z by nia.
      lia. }
  split; [exact O|]. unfold run_ranking_query. now rewrite O.
Qed.

Lemma realistic_counts_never_overflow_witness :
  (forall r b, In r sample_table -> num_bikes_available r = Some b ->
               (Z.abs b < 2 ^ 31)%Z) /\
  (Z.of_nat (List.length sample_table) <= 2 ^ 31)%Z /\
  ranking_overflows sample_table = false.
Proof.
  assert (H1 : forall r b, In r sample_table -> num_bikes_available r = Some b ->
                           (Z.abs b < 2 ^ 31)%Z).
  { intros r b Hr. unfold sample_table in Hr. cbn [map] in Hr.
    repeat (destruct Hr as [<-|Hr]; [cbn; intros [= <-]; lia|]).
    contradiction. }
  assert (H2 : (Z.of_nat (List.length sample_table) <= 2 ^ 31)%Z) by (cbn; lia).
  split; [exact H1|]. split; [exact H2|].
  exact (proj1 (realistic_counts_never_overflow sample_table H1 H2)).
Defined.
